(** * Pixel-classifier ensemble pipeline: [train_interpreter.py]

    A shallow embedding of the three stages of [train_interpreter.py]
    ([prepare_data], [train], [evaluation]) and of the resumption logic of
    its entry point, followed by the properties of the pipeline.

    Conventions.
    - A tensor is a nested list in row-major order; its shape is the list of
      the lengths of its levels.  Label values are integers ([Z]); the label
      accumulator [y] has dtype [uint8], written out as reduction modulo 256.
    - Feature values are floating-point numbers on which the pipeline never
      computes: they are elements of an arbitrary type.  Loss values are only
      ever compared, so they are elements of an arbitrary type with a
      comparison.  Uncertainty scores are summed and divided: rationals.
    - The external collaborators (feature extractor, [collect_features],
      [predict_labels], [compute_iou], the seeded noise generator) are
      variables of the sections that use them.
    - In-place assignment [t[row] = v] is list insertion; the rows assigned
      by the loops are always in range. *)

From Stdlib Require Import ZArith QArith Lia Ascii.
From stdpp Require Import base list gmap strings pretty.

(** ** Run configuration *)

(** The entries of the [args] dictionary that the pipeline reads.
    [dim] is [args['dim'] = [H, W, D]]; [share_noise] is [None] when the key
    is absent. *)
Record Args := {
  dim : nat * nat * nat;
  number_class : nat;
  ignore_label : Z;
  share_noise : option bool;
  seed : Z;
  exp_dir : string;
  model_num : nat;
}.

Definition dim0 (args : Args) : nat := (dim args).1.1.
Definition dim1 (args : Args) : nat := (dim args).1.2.
Definition dim2 (args : Args) : nat := (dim args).2.

(** [opts['image_size'] = opts['dim'][0]] (line 195) *)
Definition image_size (args : Args) : nat := dim0 args.

(** ** Tensors as nested lists *)

(** [t[i, j]] *)
Definition pixel {T} (t : list (list T)) (i j : nat) : option T :=
  t !! i ≫= (.!! j).

(** Elementwise application of [f] to a 2-D tensor. *)
Definition pixel_map {T U} (f : T → U) (t : list (list T)) : list (list U) :=
  fmap (M:=list) f <$> t.

(** A 2-D tensor of shape (rows, cols). *)
Definition has_shape2 {T} (rows cols : nat) (t : list (list T)) : Prop :=
  length t = rows ∧ Forall (λ r, length r = cols) t.

(** A 3-D tensor of shape (a, b, c). *)
Definition has_shape3 {T} (a b c : nat) (t : list (list (list T))) : Prop :=
  length t = a ∧ Forall (has_shape2 b c) t.

(** Column [j] of a matrix. *)
Definition column {T} (j : nat) (m : list (list T)) : list T :=
  omap (.!! j) m.

(** Exchange of the two leading axes of a tensor whose second axis has
    length [cols]: [permute(1, 0)], and [permute(1, 0, 2, 3)] when the
    entries are themselves planes. *)
Definition transpose {T} (cols : nat) (m : list (list T)) : list (list T) :=
  (λ j, column j m) <$> seq 0 cols.

(** [torch.zeros(shape)] *)
Definition zeros2 {T} (z : T) (a b : nat) : list (list T) :=
  replicate a (replicate b z).
Definition zeros3 {T} (z : T) (a b c : nat) : list (list (list T)) :=
  replicate a (zeros2 z b c).
Definition zeros4 {T} (z : T) (a b c d : nat) : list (list (list (list T))) :=
  replicate a (zeros3 z b c d).

(** [enumerate(dataset)] *)
Definition enumerate {T} (l : list T) : list (nat * T) :=
  zip (seq 0 (length l)) l.

(** Boolean-mask indexing [t[mask]] along the leading axis. *)
Fixpoint mask_select {T} (mask : list bool) (t : list T) : list T :=
  match mask, t with
  | b :: mask', x :: t' =>
      if b then x :: mask_select mask' t' else mask_select mask' t'
  | _, _ => []
  end.

(** ** Sparse-label suppression (lines 66-71) *)

(** An (H, W) integer label map. *)
Abbreviation label_map := (list (list Z)).

(** [(label == target).sum()] *)
Definition count_eq (label : label_map) (target : Z) : nat :=
  length (filter (λ v, v = target) (concat label)).

(** [label[label == target] = value] *)
Definition masked_fill (label : label_map) (target value : Z) : label_map :=
  pixel_map (λ v, if decide (v = target) then value else v) label.

(** One iteration of the loop over [range(args['number_class'])]. *)
Definition suppress_target (ignore_label : Z) (label : label_map)
    (target : nat) : label_map :=
  if decide (Z.of_nat target = ignore_label) then label
  else if decide (0 < count_eq label (Z.of_nat target)
                  ∧ count_eq label (Z.of_nat target) < 20)
       then masked_fill label (Z.of_nat target) ignore_label
       else label.

(** The whole loop: the label map that is then stored into [y[row]]. *)
Definition suppress_sparse (number_class : nat) (ignore_label : Z)
    (label : label_map) : label_map :=
  foldl (suppress_target ignore_label) label (seq 0 number_class).

(** The classes that the loop relabels, read off the original label map:
    a class index below [bound], different from the ignore label, with
    between 1 and 19 pixels in the image. *)
Definition sparse_class (bound : nat) (ignore_label : Z) (label : label_map)
    (v : Z) : Prop :=
  (0 ≤ v < Z.of_nat bound)%Z ∧ v ≠ ignore_label
  ∧ 0 < count_eq label v ∧ count_eq label v < 20.

#[global] Instance sparse_class_dec bound ign label v :
  Decision (sparse_class bound ign label v).
Proof. unfold sparse_class. apply _. Defined.

Definition relabel (bound : nat) (ignore_label : Z) (label : label_map)
    (v : Z) : Z :=
  if decide (sparse_class bound ignore_label label v) then ignore_label else v.

(** Conversion to [torch.uint8] on assignment into [y]. *)
Definition to_uint8 (v : Z) : Z := (v mod 256)%Z.

Definition fits_uint8 (v : Z) : Prop := (0 ≤ v < 256)%Z.

(** The number of pixels of a label map that do not carry the ignore
    label. *)
Definition kept_pixels (ignore_label : Z) (label : label_map) : nat :=
  length (filter (λ v, v ≠ ignore_label) (concat label)).

(** ** Shared noise (lines 53-59 and 92-97) *)

Section Noise.
Context {Noise : Type}.

(** [torch.randn(1, 3, size, size, generator=Generator().manual_seed(seed))]:
    the tensor drawn from a freshly seeded generator, as a function of the
    seed and the size. *)
Variable randn : Z → nat → Noise.

(** Lines 53-59 of [prepare_data]. *)
Definition make_noise (args : Args) : option Noise :=
  match share_noise args with
  | Some true => Some (randn (seed args) (image_size args))
  | _ => None
  end.

(** Lines 92-97 of [evaluation]. *)
Definition eval_noise (args : Args) : option Noise :=
  match share_noise args with
  | Some true => Some (randn (seed args) (image_size args))
  | _ => None
  end.

End Noise.

(** ** Calls to the feature extractor (lines 63 and 102) *)

Section Extractor.
Context {Img Noise Feat : Type}.

(** [feature_extractor(img, noise=noise)] *)
Variable feature_extractor : Img → option Noise → Feat.

(** One call: what the extractor returns for the image and the noise it is
    given, and the record of the call for the log. *)
Definition call_extractor (img : Img) (noise : option Noise)
    : Feat * list (Img * option Noise) :=
  (feature_extractor img noise, [(img, noise)]).

End Extractor.

(** ** [prepare_data] (lines 36-79) *)

Section PrepareData.
Context {Img Noise Feat A : Type}.

(** The value [0.0] that fills the feature accumulator. *)
Variable zero : A.
Variable randn : Z → nat → Noise.
(** [feature_extractor(img, noise=noise)] *)
Variable feature_extractor : Img → option Noise → Feat.
(** [collect_features(args, features)], a 3-D tensor. *)
Variable collect_features : Feat → list (list (list A)).

(** The variables of the loop over the dataset, with the log of the calls
    made to the feature extractor. *)
Record prep_state := {
  acc_X : list (list (list (list A)));
  acc_y : list label_map;
  calls : list (Img * option Noise);
}.

(** Lines 50-51: [X] has shape (N, *dim[::-1]), [y] has shape (N, *dim[:-1]). *)
Definition prep_init (args : Args) (n : nat) : prep_state :=
  {| acc_X := zeros4 zero n (dim2 args) (dim1 args) (dim0 args);
     acc_y := zeros3 0%Z n (dim0 args) (dim1 args);
     calls := [] |}.

(** What the loop stores for one dataset item: the collected feature
    tensor, and the suppressed label map converted to [uint8]. *)
Definition item_features (args : Args) (it : Img * label_map)
    : list (list (list A)) :=
  collect_features (feature_extractor it.1 (make_noise randn args)).

Definition item_labels (args : Args) (it : Img * label_map) : label_map :=
  pixel_map to_uint8
    (suppress_sparse (number_class args) (ignore_label args) it.2).

(** The label maps after suppression, and the sum over the images of their
    numbers of non-ignore pixels. *)
Definition suppressed_labels (args : Args) (dataset : list (Img * label_map))
    : list label_map :=
  (λ it, suppress_sparse (number_class args) (ignore_label args) it.2)
    <$> dataset.

Definition kept_rows (args : Args) (dataset : list (Img * label_map)) : nat :=
  sum_list (kept_pixels (ignore_label args) <$> suppressed_labels args dataset).

(** Every label value of the dataset is representable in [uint8]. *)
Definition labels_fit (dataset : list (Img * label_map)) : Prop :=
  Forall (λ it, Forall (Forall fits_uint8) it.2) dataset.

(** The body of the loop (lines 62-72). *)
Definition prep_step (args : Args) (noise : option Noise) (st : prep_state)
    (it : nat * (Img * label_map)) : prep_state :=
  let row := it.1 in
  let img := it.2.1 in
  let label := it.2.2 in
  let call := call_extractor feature_extractor img noise in
  let features := call.1 in
  let label' := suppress_sparse (number_class args) (ignore_label args) label in
  {| acc_X := <[row := collect_features features]> (acc_X st);
     acc_y := <[row := pixel_map to_uint8 label']> (acc_y st);
     calls := calls st ++ call.2 |}.

Definition prep_loop (args : Args) (dataset : list (Img * label_map))
    : prep_state :=
  foldl (prep_step args (make_noise randn args))
        (prep_init args (length dataset)) (enumerate dataset).

(** Line 76: [X.permute(1,0,2,3).reshape(d, -1).permute(1, 0)] for [X] of
    shape (n, d, p, q). *)
Definition flatten_features (n d p q : nat) (X : list (list (list (list A))))
    : list (list A) :=
  let permuted := transpose d X in
  let reshaped := (λ planes, concat (concat planes)) <$> permuted in
  transpose (n * p * q) reshaped.

(** Line 77: [y.flatten()] *)
Definition flatten_labels (y : list label_map) : list Z :=
  concat (concat y).

(** Line 79: the mask [y != args['ignore_label']]. [y] is a [uint8] tensor
    and the comparison converts the scalar to that type: the stored values
    are compared with the ignore label reduced modulo 256. *)
Definition keep_mask (ignore_label : Z) (y : list Z) : list bool :=
  (λ v, bool_decide (v ≠ to_uint8 ignore_label)) <$> y.

(** The flattened table before the ignore filter. *)
Definition prep_flat (args : Args) (dataset : list (Img * label_map))
    : list (list A) * list Z :=
  let st := prep_loop args dataset in
  (flatten_features (length dataset) (dim2 args) (dim1 args) (dim0 args)
     (acc_X st),
   flatten_labels (acc_y st)).

Definition prepare_data (args : Args) (dataset : list (Img * label_map))
    : list (list A) * list Z :=
  let '(X, y) := prep_flat args dataset in
  let mask := keep_mask (ignore_label args) y in
  (mask_select mask X, mask_select mask y).

(** The dataset and the collaborators respect the shapes of the
    accumulators: every label map is (dim[0], dim[1]) and every collected
    feature tensor is (dim[2], dim[1], dim[0]). *)
Definition well_shaped (args : Args) (dataset : list (Img * label_map))
    : Prop :=
  Forall (λ it, has_shape2 (dim0 args) (dim1 args) it.2
                ∧ ∀ noise, has_shape3 (dim2 args) (dim1 args) (dim0 args)
                      (collect_features (feature_extractor it.1 noise)))
         dataset.

End PrepareData.

(** ** [evaluation] (lines 83-114) *)

(** A Python call either returns or raises; the only exception that the
    code of this file can raise by itself is the division by zero of
    line 114. *)
Inductive outcome (T : Type) : Type :=
| Returned (v : T)
| ZeroDivisionError.
Arguments Returned {T} v.
Arguments ZeroDivisionError {T}.

(** [sum(uncertainty_scores)]: left to right, from 0. *)
Definition sum_scores (scores : list Q) : Q := foldl Qplus 0%Q scores.

(** [sum(uncertainty_scores) / len(uncertainty_scores)] *)
Definition mean_uncertainty (scores : list Q) : outcome Q :=
  if decide (length scores = 0) then ZeroDivisionError
  else Returned (sum_scores scores / inject_Z (Z.of_nat (length scores)))%Q.

Section Evaluation.
Context {Img Noise Feat A Pred IoU : Type}.

Variable randn : Z → nat → Noise.
Variable feature_extractor : Img → option Noise → Feat.
Variable collect_features : Feat → list (list (list A)).
(** [predict_labels(models, x, size=args['dim'][:-1])] for the loaded
    ensemble: the predicted label map and the uncertainty score. *)
Variable predict_labels : list (list A) → Pred * Q.
(** [compute_iou(args, preds, gts)] *)
Variable compute_iou : list Pred → list label_map → IoU.

Record eval_state := {
  preds : list Pred;
  gts : list label_map;
  uncertainty_scores : list Q;
  eval_calls : list (Img * option Noise);
}.

Definition eval_init : eval_state :=
  {| preds := []; gts := []; uncertainty_scores := []; eval_calls := [] |}.

(** Lines 103-106: the prediction and the uncertainty score from what the
    extractor returned; [features.view(D, -1)] joins the two spatial axes
    of the (D, H, W) tensor and [permute(1, 0)] makes one row per pixel. *)
Definition predict_features (args : Args) (extracted : Feat) : Pred * Q :=
  let features := collect_features extracted in
  let x := transpose (dim0 args * dim1 args)
                     ((λ plane, concat plane) <$> features) in
  predict_labels x.

(** Lines 101-106: the prediction and the uncertainty score of one image
    under a given noise. *)
Definition predict_image (args : Args) (noise : option Noise) (img : Img)
    : Pred * Q :=
  predict_features args (feature_extractor img noise).

(** The body of the loop (lines 101-109). *)
Definition eval_step (args : Args) (noise : option Noise) (st : eval_state)
    (it : Img * label_map) : eval_state :=
  let img := it.1 in
  let label := it.2 in
  let call := call_extractor feature_extractor img noise in
  let r := predict_features args call.1 in
  {| preds := preds st ++ [r.1];
     gts := gts st ++ [label];
     uncertainty_scores := uncertainty_scores st ++ [r.2];
     eval_calls := eval_calls st ++ call.2 |}.

Definition eval_loop (args : Args) (dataset : list (Img * label_map))
    : eval_state :=
  foldl (eval_step args (eval_noise randn args)) eval_init dataset.

(** What [evaluation] reports: the mIoU returned by [compute_iou] on the
    collected predictions and ground truths, and the mean uncertainty. *)
Definition evaluation (args : Args) (dataset : list (Img * label_map))
    : outcome (IoU * Q) :=
  let st := eval_loop args dataset in
  let miou := compute_iou (preds st) (gts st) in
  match mean_uncertainty (uncertainty_scores st) with
  | Returned m => Returned (miou, m)
  | ZeroDivisionError => ZeroDivisionError
  end.

End Evaluation.

(** ** The training loop of one ensemble member (lines 139-173) *)

Section Trainer.
Context {Loss : Type}.

(** [loss.item() < best_loss] *)
Variable loss_lt : Loss → Loss → bool.
(** The initial [best_loss], 10000000. *)
Variable sentinel : Loss.

Record train_state := {
  iteration : nat;
  break_count : nat;
  best_loss : Loss;
  stop_sign : bool;
}.

Definition train_init : train_state :=
  {| iteration := 0; break_count := 0; best_loss := sentinel;
     stop_sign := false |}.

(** Lines 161-165. *)
Definition observe (loss : Loss) (s : train_state) : train_state :=
  if loss_lt loss (best_loss s)
  then {| iteration := iteration s; break_count := 0; best_loss := loss;
          stop_sign := stop_sign s |}
  else {| iteration := iteration s; break_count := S (break_count s);
          best_loss := best_loss s; stop_sign := stop_sign s |}.

(** Lines 167-170; the flag says whether [break] is executed. *)
Definition check_stop (s : train_state) : train_state * bool :=
  if decide (50 < break_count s)
  then ({| iteration := iteration s; break_count := break_count s;
           best_loss := best_loss s; stop_sign := true |}, true)
  else (s, false).

Definition count_step (s : train_state) : train_state :=
  {| iteration := S (iteration s); break_count := break_count s;
     best_loss := best_loss s; stop_sign := stop_sign s |}.

(** One batch (lines 145-170), given the loss that the step produced. *)
Definition batch_step (epoch : nat) (loss : Loss) (s : train_state)
    : train_state * bool :=
  let s1 := count_step s in
  if decide (3 < epoch) then check_stop (observe loss s1) else (s1, false).

(** The inner loop over the batches of one epoch. *)
Fixpoint run_epoch (epoch : nat) (losses : list Loss) (s : train_state)
    : train_state :=
  match losses with
  | [] => s
  | loss :: rest =>
      let r := batch_step epoch loss s in
      if r.2 then r.1 else run_epoch epoch rest r.1
  end.

(** The outer loop with the test of lines 172-173; [loss_of e] lists the
    losses that the batches of epoch [e] produce. *)
Fixpoint run_epochs (loss_of : nat → list Loss) (epochs : list nat)
    (s : train_state) : train_state :=
  match epochs with
  | [] => s
  | e :: rest =>
      let s' := run_epoch e (loss_of e) s in
      if stop_sign s' then s' else run_epochs loss_of rest s'
  end.

(** [for epoch in range(100)] from the initial state. *)
Definition train_classifier (loss_of : nat → list Loss) : train_state :=
  run_epochs loss_of (seq 0 100) train_init.

(** The losses of a range of epochs, in step order. *)
Definition steps_of (loss_of : nat → list Loss) (first count : nat)
    : list Loss :=
  concat (loss_of <$> seq first count).

(** The state in which epoch 4 starts: the steps of epochs 0 to 3 counted,
    nothing else touched. *)
Definition warm_state (loss_of : nat → list Loss) : train_state :=
  {| iteration := length (steps_of loss_of 0 4); break_count := 0;
     best_loss := sentinel; stop_sign := false |}.

(** The loop over the steps once the check is active, epochs joined: it
    leaves at the first step whose check fires. *)
Fixpoint run_checked (losses : list Loss) (s : train_state) : train_state :=
  match losses with
  | [] => s
  | loss :: rest =>
      let r := check_stop (observe loss (count_step s)) in
      if r.2 then r.1 else run_checked rest r.1
  end.

End Trainer.

(** ** Resumption (lines 128, 175-179 and 208-215) *)

(** Whether a path ends with the separator. *)
Fixpoint ends_with_sep (s : string) : bool :=
  match s with
  | EmptyString => false
  | String c EmptyString => bool_decide (c = "/"%char)
  | String _ rest => ends_with_sep rest
  end.

(** [os.path.join(dir, name)] for a relative [name]. *)
Definition path_join (dir name : string) : string :=
  if decide (dir = "") then name
  else if ends_with_sep dir then dir +:+ name
  else dir +:+ "/" +:+ name.

(** ['model_' + str(i) + '.pth'] inside the experiment directory. *)
Definition model_path (dir : string) (i : nat) : string :=
  path_join dir ("model_" +:+ pretty i +:+ ".pth").

(** The model files and what a run did: the member numbers for which the
    body of the loop of [train] ran, and the paths handed to [torch.save],
    both in order. *)
Record run_log := {
  files : gset string;
  trained : list nat;
  saved : list string;
}.

(** Lines 209-210: [os.path.exists] for every member. *)
Definition pretrained (fs : gset string) (dir : string) (n : nat)
    : list bool :=
  (λ i, bool_decide (model_path dir i ∈ fs)) <$> seq 0 n.

(** [all(pretrained)] and [sum(pretrained)] *)
Definition all_true (l : list bool) : bool := forallb id l.
Definition sum_true (l : list bool) : nat := length (filter (λ b, b = true) l).

(** One member (lines 129-179): train, then save under the member's path,
    replacing a file that is already there. *)
Definition train_member (dir : string) (st : run_log) (member : nat)
    : run_log :=
  {| files := {[ model_path dir member ]} ∪ files st;
     trained := trained st ++ [member];
     saved := saved st ++ [model_path dir member] |}.

(** The loop of [train] over [range(start_model_num, model_num)]. *)
Definition train (dir : string) (start_model_num n : nat) (fs : gset string)
    : run_log :=
  foldl (train_member dir) {| files := fs; trained := []; saved := [] |}
        (seq start_model_num (n - start_model_num)).

(** Lines 209-215 of the entry point. *)
Definition main_training (args : Args) (fs : gset string) : run_log :=
  let pre := pretrained fs (exp_dir args) (model_num args) in
  if all_true pre then {| files := fs; trained := []; saved := [] |}
  else train (exp_dir args) (sum_true pre) (model_num args) fs.

(** The members whose file is absent, in increasing order. *)
Definition missing_members (args : Args) (fs : gset string) : list nat :=
  filter (λ i, model_path (exp_dir args) i ∉ fs) (seq 0 (model_num args)).

(** The existing files form an initial segment of the members. *)
Definition prefix_trained (args : Args) (fs : gset string) (k : nat) : Prop :=
  k ≤ model_num args
  ∧ ∀ i, i < model_num args → (model_path (exp_dir args) i ∈ fs ↔ i < k).

(** [len(train_loader)] for [DataLoader(..., batch_size, drop_last=True)]
    over a table of [rows] rows: the final partial batch is dropped. *)
Definition len_loader (rows batch_size : nat) : nat := rows / batch_size.

(** The directory after [k] runs of the entry point, one after the
    other. *)
Fixpoint rerun (args : Args) (k : nat) (fs : gset string) : gset string :=
  match k with
  | 0 => fs
  | S k' => rerun args k' (files (main_training args fs))
  end.

(** ** The experiment folder (lines 197-201) *)

(** [sep.join(parts)] *)
Fixpoint join_with (sep : string) (parts : list string) : string :=
  match parts with
  | [] => ""
  | [part] => part
  | part :: rest => part +:+ sep +:+ join_with sep rest
  end.

(** ['_'.join([str(step) for step in opts['steps']])], followed by ['_'] and
    the same for [opts['blocks']]. *)
Definition exp_suffix (steps blocks : list Z) : string :=
  join_with "_" (pretty <$> steps) +:+ "_" +:+ join_with "_" (pretty <$> blocks).

(** The experiment directory that the entry point works in. *)
Definition experiment_dir (dir : string) (steps blocks : list Z) : string :=
  if decide (0 < length steps) then path_join dir (exp_suffix steps blocks)
  else dir.

(** ** Concrete runs *)

(** Collaborators for concrete runs. An image is its number; the collected
    tensor of shape (d, s, s) holds at [c, i, j] a code of the image, the
    feature index and the pixel; the seeded noise is the pair of the seed
    and the size; the predictor reports the number of pixel rows it was
    given and the first feature value as the score. *)
Definition demo_extractor (img : nat) (noise : option (Z * nat)) : nat := img.

Definition demo_collect (d s : nat) (img : nat) : list (list (list Z)) :=
  (λ c,
     (λ i,
        (λ j, Z.of_nat (((img * 10 + c) * 10 + i) * 10 + j)) <$> seq 0 s)
       <$> seq 0 s)
    <$> seq 0 d.

Definition demo_randn (seed : Z) (size : nat) : Z * nat := (seed, size).

Definition demo_predict (x : list (list Z)) : nat * Q :=
  (length x,
   match x with
   | (v :: _) :: _ => inject_Z v
   | _ => 0%Q
   end).

Definition demo_iou (preds : list nat) (gts : list label_map) : nat :=
  length gts.

(** The scenario of the specification: two 4x4 images, three feature
    dimensions, three classes, ignore label 255; class 1 has ten pixels,
    four in the first image and six in the second. *)
Definition scenario_args : Args :=
  {| dim := (4, 4, 3); number_class := 3; ignore_label := 255;
     share_noise := Some true; seed := 0; exp_dir := "exp"; model_num := 3 |}.

Definition scenario_images : list (nat * label_map) :=
  [ (0, [ [1; 1; 1; 1]; [0; 0; 0; 0]; [0; 0; 0; 0]; [0; 0; 0; 0] ]%Z);
    (1, [ [1; 1; 1; 1]; [1; 1; 2; 2]; [2; 2; 2; 2]; [2; 2; 2; 2] ]%Z) ].

(** A 5x5 image with 21 pixels of class 0 and 4 pixels of class 1. *)
Definition sparse_label : label_map :=
  [ [0; 0; 0; 0; 0]; [0; 0; 0; 0; 0]; [0; 0; 0; 0; 0]; [0; 0; 0; 0; 0];
    [0; 1; 1; 1; 1] ]%Z.

Definition sparse_args : Args :=
  {| dim := (5, 5, 2); number_class := 3; ignore_label := 255;
     share_noise := None; seed := 0; exp_dir := "exp"; model_num := 3 |}.

Definition sparse_images : list (nat * label_map) := [ (0, sparse_label) ].

(** A 5x5 image whose 25 pixels all carry class 256, in a run with 257
    classes and ignore label 0. *)
Definition wide_label : label_map := replicate 5 (replicate 5 256%Z).

Definition wide_args : Args :=
  {| dim := (5, 5, 1); number_class := 257; ignore_label := 0;
     share_noise := None; seed := 0; exp_dir := "exp"; model_num := 3 |}.

Definition wide_images : list (nat * label_map) := [ (0, wide_label) ].

(** Loss sequences with one batch per epoch: strictly decreasing over
    epochs 0 to 3, then at 50 for [flat] epochs, then strictly decreasing
    again. *)
Definition plateau_losses (flat : nat) (epoch : nat) : list Z :=
  [ if decide (epoch < 4) then (100 - Z.of_nat epoch)%Z
    else if decide (epoch < 4 + flat) then 50%Z
    else (49 + Z.of_nat (4 + flat) - Z.of_nat epoch)%Z ].

(** An experiment directory in which the files of members 0 and 2 exist
    and that of member 1 does not. *)
Definition gap_files : gset string := {[ "exp/model_0.pth"; "exp/model_2.pth" ]}.

(** A run whose table has fewer rows than the batch size: no epoch has a
    batch. *)
Definition idle_losses (epoch : nat) : list Z := [].

(** The scenario images with empty label maps. *)
Definition scenario_unlabelled : list (nat * label_map) := [ (0, []); (1, []) ].

(** An extractor for concrete runs whose result shows the noise it was
    given: the image number, moved up by twice the size of the noise when
    there is one. *)
Definition noisy_extractor (img : nat) (noise : option (Z * nat)) : nat :=
  match noise with
  | Some (_, size) => img + 2 * size
  | None => img
  end.

(** A 5x5 image with 21 pixels of class 0, two pixels of class 2 and the
    values 255 and 511, in a run with ignore label -1. *)
Definition wrap_label : label_map :=
  [ [0; 0; 0; 0; 0]; [0; 0; 0; 0; 0]; [0; 0; 0; 0; 0]; [0; 0; 0; 0; 0];
    [0; 255; 2; 511; 2] ]%Z.

Definition wrap_args : Args :=
  {| dim := (5, 5, 1); number_class := 3; ignore_label := -1;
     share_noise := None; seed := 0; exp_dir := "exp"; model_num := 3 |}.

Definition wrap_images : list (nat * label_map) := [ (0, wrap_label) ].

(** * Properties *)

(** ** Elementwise maps, counts and lookups *)

Lemma pixel_map_ext {T U} (f g : T → U) (t : list (list T)) :
  (∀ v, f v = g v) → pixel_map f t = pixel_map g t.
Proof.
  intros Hfg. unfold pixel_map.
  apply list_fmap_ext; intros _ r _.
  apply list_fmap_ext; intros _ v _. apply Hfg.
Qed.

Lemma pixel_map_id {T} (t : list (list T)) : pixel_map (λ v, v) t = t.
Proof.
  unfold pixel_map. induction t as [|r t IH]; [done|].
  rewrite fmap_cons, list_fmap_id. f_equal. exact IH.
Qed.

Lemma pixel_map_compose {T U V} (f : T → U) (g : U → V) (t : list (list T)) :
  pixel_map g (pixel_map f t) = pixel_map (λ v, g (f v)) t.
Proof.
  unfold pixel_map. rewrite <- list_fmap_compose.
  apply list_fmap_ext; intros _ r _. simpl.
  rewrite <- list_fmap_compose. done.
Qed.

Lemma pixel_pixel_map {T U} (f : T → U) (t : list (list T)) i j :
  pixel (pixel_map f t) i j = f <$> pixel t i j.
Proof.
  unfold pixel, pixel_map. rewrite list_lookup_fmap.
  destruct (t !! i) as [r|]; simpl; [|done].
  apply list_lookup_fmap.
Qed.

Lemma concat_pixel_map {T U} (f : T → U) (t : list (list T)) :
  concat (pixel_map f t) = f <$> concat t.
Proof.
  unfold pixel_map. induction t as [|r t IH]; [done|].
  rewrite fmap_cons. cbn [concat]. rewrite fmap_app. f_equal. exact IH.
Qed.

Lemma length_filter_fmap {T U} (f : T → U) (P : U → Prop)
    `{∀ u, Decision (P u)} (l : list T) :
  length (filter P (f <$> l)) = length (filter (λ v, P (f v)) l).
Proof.
  induction l as [|v l IH]; [done|].
  rewrite fmap_cons, !filter_cons.
  destruct (decide (P (f v))); cbn [length]; rewrite IH; done.
Qed.

Lemma count_eq_pixel_map (f : Z → Z) (label : label_map) (c : Z) :
  count_eq (pixel_map f label) c
  = length (filter (λ v, f v = c) (concat label)).
Proof.
  unfold count_eq. rewrite concat_pixel_map. apply length_filter_fmap.
Qed.

(** ** Sparse-label suppression *)

Lemma relabel_eq_class bound ign label (v c : Z) :
  c ≠ ign →
  relabel bound ign label v = c ↔ v = c ∧ ¬ sparse_class bound ign label c.
Proof.
  intros Hc. unfold relabel.
  destruct (decide (sparse_class bound ign label v)) as [Hs|Hs].
  - split; [intros ->; done|]. intros [-> Hn]. done.
  - split; [intros ->; done|]. intros [-> _]. done.
Qed.

Lemma sparse_class_step n ign label (v : Z) :
  sparse_class (S n) ign label v
  ↔ sparse_class n ign label v
    ∨ (v = Z.of_nat n ∧ v ≠ ign
       ∧ 0 < count_eq label v ∧ count_eq label v < 20).
Proof. unfold sparse_class. lia. Qed.

(** The loop computes [relabel] pixel by pixel: the counts that it reads
    from the label map that it is rewriting are those of the original. *)
Lemma suppress_prefix n ign (label : label_map) :
  foldl (suppress_target ign) label (seq 0 n)
  = pixel_map (relabel n ign label) label.
Proof.
  induction n as [|n IH].
  - simpl. rewrite <- (pixel_map_id label) at 1.
    apply pixel_map_ext. intros v. unfold relabel.
    destruct (decide _) as [Hs|]; [|done].
    unfold sparse_class in Hs. lia.
  - rewrite seq_S, foldl_app, IH. simpl. unfold suppress_target.
    assert (Hcount : Z.of_nat n ≠ ign →
              count_eq (pixel_map (relabel n ign label) label) (Z.of_nat n)
              = count_eq label (Z.of_nat n)).
    { intros Hn. rewrite count_eq_pixel_map. unfold count_eq. f_equal.
      apply list_filter_iff. intros v.
      rewrite (relabel_eq_class n ign label v (Z.of_nat n) Hn).
      unfold sparse_class. lia. }
    destruct (decide (Z.of_nat n = ign)) as [Hn|Hn].
    { apply pixel_map_ext. intros v. unfold relabel.
      destruct (decide (sparse_class n ign label v)) as [Hs|Hs];
        destruct (decide (sparse_class (S n) ign label v)) as [Hs'|Hs'];
        try done; rewrite sparse_class_step in Hs'; [tauto|].
      destruct Hs' as [?|(-> & ? & _)]; done. }
    rewrite (Hcount Hn).
    destruct (decide (0 < count_eq label (Z.of_nat n)
                      ∧ count_eq label (Z.of_nat n) < 20)) as [Hc|Hc].
    + unfold masked_fill. rewrite pixel_map_compose.
      apply pixel_map_ext. intros v.
      destruct (decide (relabel n ign label v = Z.of_nat n)) as [He|He].
      * apply relabel_eq_class in He as [-> _]; [|done].
        unfold relabel. rewrite decide_True; [done|].
        apply sparse_class_step. right. tauto.
      * unfold relabel in *.
        destruct (decide (sparse_class n ign label v)) as [Hs|Hs].
        { rewrite decide_True; [done|]. apply sparse_class_step. tauto. }
        rewrite decide_False; [done|]. rewrite sparse_class_step.
        intros [?|(-> & _)]; done.
    + apply pixel_map_ext. intros v. unfold relabel.
      destruct (decide (sparse_class n ign label v)) as [Hs|Hs].
      { rewrite decide_True; [done|]. apply sparse_class_step. tauto. }
      rewrite decide_False; [done|]. rewrite sparse_class_step.
      intros [?|(-> & _ & ? & ?)]; [done|]. apply Hc. done.
Qed.

Lemma suppress_sparse_relabel nc ign (label : label_map) :
  suppress_sparse nc ign label = pixel_map (relabel nc ign label) label.
Proof. apply suppress_prefix. Qed.

Lemma count_eq_suppress nc ign (label : label_map) (c : Z) :
  c ≠ ign →
  count_eq (suppress_sparse nc ign label) c
  = if decide (sparse_class nc ign label c) then 0 else count_eq label c.
Proof.
  intros Hc. rewrite suppress_sparse_relabel, count_eq_pixel_map.
  destruct (decide (sparse_class nc ign label c)) as [Hs|Hs].
  - rewrite (list_filter_iff _ (λ _, False)).
    + induction (concat label) as [|v l IH]; [done|].
      rewrite filter_cons. destruct (decide False); [done|exact IH].
    + intros v. rewrite relabel_eq_class by done. tauto.
  - unfold count_eq. f_equal. apply list_filter_iff. intros v.
    rewrite relabel_eq_class by done. tauto.
Qed.


(** ** Indexing flattened and transposed tensors *)

Lemma column_lookup {T} (j : nat) (m : list (list T)) (i : nat) :
  Forall (λ r, j < length r) m → column j m !! i = m !! i ≫= (.!! j).
Proof.
  unfold column. intros Hm. revert i.
  induction Hm as [|r m Hr _ IH]; intros i; [done|].
  apply lookup_lt_is_Some in Hr as [x Hx].
  cbn [omap list_omap]. rewrite Hx.
  destruct i as [|i]; simpl; [by rewrite Hx|]. apply IH.
Qed.

Lemma length_column {T} (j : nat) (m : list (list T)) :
  Forall (λ r, j < length r) m → length (column j m) = length m.
Proof.
  unfold column. induction 1 as [|r m Hr _ IH]; [done|].
  apply lookup_lt_is_Some in Hr as [x Hx].
  cbn [omap list_omap]. rewrite Hx. simpl. by rewrite IH.
Qed.

Lemma transpose_lookup {T} (cols : nat) (m : list (list T)) (j : nat) :
  j < cols → transpose cols m !! j = Some (column j m).
Proof.
  intros Hj. unfold transpose.
  rewrite list_lookup_fmap, lookup_seq_lt by done. done.
Qed.

Lemma length_transpose {T} (cols : nat) (m : list (list T)) :
  length (transpose cols m) = cols.
Proof. unfold transpose. by rewrite length_fmap, length_seq. Qed.

Lemma lookup_concat_uniform {T} (q : nat) (m : list (list T)) (i j : nat) :
  Forall (λ r, length r = q) m → j < q →
  concat m !! (i * q + j) = m !! i ≫= (.!! j).
Proof.
  intros Hm Hj. revert i.
  induction Hm as [|r m Hr _ IH]; intros i; [done|].
  cbn [concat]. destruct i as [|i]; simpl.
  - apply lookup_app_l. lia.
  - rewrite lookup_app_r by lia. rewrite <- IH. f_equal. lia.
Qed.

Lemma length_concat_uniform {T} (q : nat) (m : list (list T)) :
  Forall (λ r, length r = q) m → length (concat m) = length m * q.
Proof.
  induction 1 as [|r m Hr _ IH]; [done|].
  cbn [concat]. rewrite length_app, IH, Hr. simpl. lia.
Qed.

Lemma Forall_concat {T} (P : T → Prop) (m : list (list T)) :
  Forall (Forall P) m → Forall P (concat m).
Proof.
  induction 1 as [|r m Hr _ IH]; [constructor|].
  cbn [concat]. apply Forall_app. done.
Qed.

(** The rows of the planes of a stack of (p, q) planes, joined. *)
Lemma shape_concat_planes {T} (p q : nat) (t : list (list (list T))) :
  Forall (has_shape2 p q) t →
  Forall (λ r, length r = q) (concat t) ∧ length (concat t) = length t * p.
Proof.
  intros Ht. split.
  - apply Forall_concat. eapply Forall_impl; [exact Ht|].
    intros plane [_ Hrows]. exact Hrows.
  - apply length_concat_uniform. eapply Forall_impl; [exact Ht|].
    intros plane [Hlen _]. exact Hlen.
Qed.

(** Row-major flattening of a stack of (p, q) planes. *)
Lemma lookup_flatten_planes {T} (p q : nat) (t : list (list (list T)))
    (k i j : nat) :
  Forall (has_shape2 p q) t → i < p → j < q →
  concat (concat t) !! ((k * p + i) * q + j) = t !! k ≫= (λ m, pixel m i j).
Proof.
  intros Ht Hi Hj.
  destruct (shape_concat_planes p q t Ht) as [Hrows _].
  rewrite (lookup_concat_uniform q) by done.
  rewrite (lookup_concat_uniform p); [| |done].
  - destruct (t !! k); done.
  - eapply Forall_impl; [exact Ht|]. intros plane [Hlen _]. exact Hlen.
Qed.

Lemma length_flatten_planes {T} (p q : nat) (t : list (list (list T))) :
  Forall (has_shape2 p q) t → length (concat (concat t)) = length t * p * q.
Proof.
  intros Ht. destruct (shape_concat_planes p q t Ht) as [Hrows Hlen].
  rewrite (length_concat_uniform q) by done. by rewrite Hlen.
Qed.

(** ** Boolean masks *)

Lemma mask_select_keep {T} (ign : Z) (y : list Z) (t : list T) :
  mask_select (keep_mask ign y) (zip t y)
  = filter (λ xl, xl.2 ≠ to_uint8 ign) (zip t y).
Proof.
  revert t. induction y as [|v y IH]; intros [|x t]; try done.
  cbn [keep_mask fmap list_fmap zip zip_with mask_select].
  rewrite filter_cons. simpl.
  destruct (decide (v ≠ to_uint8 ign)) as [Hv|Hv].
  - rewrite bool_decide_eq_true_2 by done. f_equal. apply IH.
  - rewrite bool_decide_eq_false_2 by done. apply IH.
Qed.

Lemma mask_select_labels (ign : Z) (y : list Z) :
  mask_select (keep_mask ign y) y = filter (λ v, v ≠ to_uint8 ign) y.
Proof.
  induction y as [|v y IH]; [done|].
  cbn [keep_mask fmap list_fmap mask_select]. rewrite filter_cons.
  destruct (decide (v ≠ to_uint8 ign)) as [Hv|Hv].
  - rewrite bool_decide_eq_true_2 by done. f_equal. apply IH.
  - rewrite bool_decide_eq_false_2 by done. apply IH.
Qed.

Lemma mask_select_zip {T U} (mask : list bool) (a : list T) (b : list U) :
  mask_select mask (zip a b) = zip (mask_select mask a) (mask_select mask b).
Proof.
  revert a b. induction mask as [|c mask IH]; intros a b.
  - by destruct a, b.
  - destruct a as [|x a], b as [|y b]; try done.
    + simpl. by rewrite zip_nil_r.
    + simpl. destruct c; simpl; by rewrite IH.
Qed.

Lemma length_mask_select {T U} (mask : list bool) (a : list T) (b : list U) :
  length a = length b →
  length (mask_select mask a) = length (mask_select mask b).
Proof.
  revert a b. induction mask as [|c mask IH]; intros a b Hab.
  - by destruct a, b.
  - destruct a as [|x a], b as [|y b]; try done.
    simpl in *. destruct c; simpl; rewrite (IH a b); auto.
Qed.

Lemma pixel_map_fixed {T} (f : T → T) (t : list (list T)) :
  Forall (Forall (λ v, f v = v)) t → pixel_map f t = t.
Proof.
  unfold pixel_map. induction 1 as [|r t Hr _ IH]; [done|].
  rewrite fmap_cons, IH. f_equal.
  induction Hr as [|v r Hv _ IHr]; [done|].
  by rewrite fmap_cons, Hv, IHr.
Qed.

Lemma Forall_pixel_map {T U} (P : T → Prop) (Q : U → Prop) (f : T → U)
    (t : list (list T)) :
  (∀ v, P v → Q (f v)) →
  Forall (Forall P) t → Forall (Forall Q) (pixel_map f t).
Proof.
  intros Hf Ht. unfold pixel_map. apply Forall_fmap.
  eapply Forall_impl; [exact Ht|]. intros r Hr. simpl.
  apply Forall_fmap. eapply Forall_impl; [exact Hr|]. done.
Qed.

Lemma concat_concat_pixel_map {T U} (f : T → U) (l : list (list (list T))) :
  concat (concat (pixel_map f <$> l)) = f <$> concat (concat l).
Proof.
  induction l as [|t l IH]; [done|].
  rewrite fmap_cons. cbn [concat].
  rewrite !concat_app, fmap_app, IH, concat_pixel_map. done.
Qed.

Lemma length_filter_flatten {T} (P : T → Prop) `{∀ v, Decision (P v)}
    (l : list (list (list T))) :
  length (filter P (concat (concat l)))
  = sum_list ((λ t, length (filter P (concat t))) <$> l).
Proof.
  induction l as [|t l IH]; [done|].
  rewrite fmap_cons. cbn [concat sum_list].
  rewrite concat_app, filter_app, length_app, IH. done.
Qed.

Lemma to_uint8_fits (v : Z) : fits_uint8 v → to_uint8 v = v.
Proof. unfold fits_uint8, to_uint8. intros Hv. by apply Z.mod_small. Qed.

Lemma to_uint8_range (v : Z) : fits_uint8 (to_uint8 v).
Proof. unfold fits_uint8, to_uint8. apply Z.mod_pos_bound. lia. Qed.

Lemma relabel_fits bound ign label (v : Z) :
  fits_uint8 ign → fits_uint8 v → fits_uint8 (relabel bound ign label v).
Proof. intros Hign Hv. unfold relabel. by destruct (decide _). Qed.

(** ** The flattened feature matrix *)

Lemma has_shape2_pixel_map {T U} (f : T → U) (a b : nat) (t : list (list T)) :
  has_shape2 a b t → has_shape2 a b (pixel_map f t).
Proof.
  unfold has_shape2, pixel_map. intros [Hlen Hrows]. split.
  - by rewrite length_fmap.
  - apply Forall_fmap. eapply Forall_impl; [exact Hrows|].
    intros r Hr. simpl. by rewrite length_fmap.
Qed.

Lemma column_planes {T} (d p q c : nat) (X : list (list (list (list T)))) :
  Forall (has_shape3 d p q) X → c < d →
  Forall (λ r, c < length r) X ∧ Forall (has_shape2 p q) (column c X).
Proof.
  intros HX Hc.
  assert (Hlen : Forall (λ r, c < length r) X).
  { eapply Forall_impl; [exact HX|]. intros t [Ht _]. lia. }
  split; [exact Hlen|].
  apply Forall_lookup. intros k plane Hk.
  rewrite column_lookup in Hk by done.
  destruct (X !! k) as [t|] eqn:Ht; simpl in Hk; [|done].
  rewrite Forall_lookup in HX. destruct (HX k t Ht) as [_ Hplanes].
  rewrite Forall_lookup in Hplanes. by apply (Hplanes c).
Qed.

(** Row [(k * p + i) * q + j] of the flattened feature matrix is the feature
    vector of pixel [(i, j)] of image [k]. *)
Lemma flatten_features_lookup {T} (n d p q : nat)
    (X : list (list (list (list T)))) (k i j : nat) :
  length X = n → Forall (has_shape3 d p q) X → k < n → i < p → j < q →
  ∃ row, flatten_features n d p q X !! ((k * p + i) * q + j) = Some row
         ∧ length row = d
         ∧ ∀ c, c < d →
             row !! c = (X !! k ≫= (.!! c)) ≫= (λ plane, pixel plane i j).
Proof.
  intros Hn HX Hk Hi Hj. unfold flatten_features.
  set (reshaped := (λ planes, concat (concat planes)) <$> transpose d X).
  set (r := (k * p + i) * q + j).
  assert (Hr : r < n * p * q).
  { subst r. assert (k * p + i < n * p) by nia.
    assert ((k * p + i) * q + j < (k * p + i + 1) * q) by nia. nia. }
  assert (Hrow : ∀ c, c < d →
            reshaped !! c = Some (concat (concat (column c X)))).
  { intros c Hc. subst reshaped.
    by rewrite list_lookup_fmap, transpose_lookup. }
  assert (Hlong : Forall (λ row, r < length row) reshaped).
  { apply Forall_lookup. intros c row Hc.
    assert (c < d) as Hcd.
    { apply lookup_lt_Some in Hc. subst reshaped.
      by rewrite length_fmap, length_transpose in Hc. }
    rewrite (Hrow c Hcd) in Hc. injection Hc as <-.
    destruct (column_planes d p q c X HX Hcd) as [Hlen Hplanes].
    rewrite (length_flatten_planes p q) by done.
    rewrite length_column by done. by rewrite Hn. }
  exists (column r reshaped). split; [|split].
  - by apply transpose_lookup.
  - rewrite length_column by done. subst reshaped.
    by rewrite length_fmap, length_transpose.
  - intros c Hc. rewrite column_lookup by done. rewrite (Hrow c Hc). simpl.
    destruct (column_planes d p q c X HX Hc) as [Hlen Hplanes].
    subst r. rewrite (lookup_flatten_planes p q) by done.
    rewrite column_lookup by done. done.
Qed.

Lemma length_flatten_features {T} (n d p q : nat)
    (X : list (list (list (list T)))) :
  length (flatten_features n d p q X) = n * p * q.
Proof. unfold flatten_features. apply length_transpose. Qed.

(** ** The accumulators after the loop of [prepare_data] *)

Lemma foldl_insert_enumerate {T U} (f : T → U) (ds : list T) (acc : list U)
    (k : nat) :
  length acc = k + length ds →
  foldl (λ a (it : nat * T), <[it.1 := f it.2]> a) acc
        (zip (seq k (length ds)) ds)
  = take k acc ++ (f <$> ds).
Proof.
  revert acc k. induction ds as [|x ds IH]; intros acc k Hlen.
  - simpl in *. rewrite take_ge by lia. by rewrite app_nil_r.
  - simpl in *. rewrite IH by (rewrite length_insert; lia).
    rewrite (take_S_r _ _ (f x)) by (apply list_lookup_insert_eq; lia).
    rewrite take_insert_ge by lia. by rewrite <- app_assoc.
Qed.

Lemma foldl_insert_all {T U} (f : T → U) (ds : list T) (acc : list U) :
  length acc = length ds →
  foldl (λ a (it : nat * T), <[it.1 := f it.2]> a) acc (enumerate ds)
  = f <$> ds.
Proof.
  intros Hlen. unfold enumerate.
  rewrite foldl_insert_enumerate by done. by rewrite take_0.
Qed.

Section PrepareDataFacts.
Context {Img Noise Feat A : Type}.
Variable zero : A.
Variable randn : Z → nat → Noise.
Variable feature_extractor : Img → option Noise → Feat.
Variable collect_features : Feat → list (list (list A)).

Local Abbreviation prep_step :=
  (prep_step feature_extractor collect_features).
Local Abbreviation prep_loop :=
  (prep_loop zero randn feature_extractor collect_features).
Local Abbreviation prep_flat :=
  (prep_flat zero randn feature_extractor collect_features).
Local Abbreviation prepare_data :=
  (prepare_data zero randn feature_extractor collect_features).
Local Abbreviation well_shaped :=
  (well_shaped feature_extractor collect_features).
Local Abbreviation item_features :=
  (item_features randn feature_extractor collect_features).

Lemma prep_fold_fields args noise (l : list (nat * (Img * label_map))) st :
  let r := foldl (prep_step args noise) st l in
  acc_X r
  = foldl (λ a (it : nat * (Img * label_map)),
             <[it.1 := collect_features (feature_extractor it.2.1 noise)]> a)
          (acc_X st) l
  ∧ acc_y r
    = foldl (λ a (it : nat * (Img * label_map)),
               <[it.1 := pixel_map to_uint8
                           (suppress_sparse (number_class args)
                              (ignore_label args) it.2.2)]> a)
            (acc_y st) l
  ∧ calls r = calls st ++ ((λ it, (it.2.1, noise)) <$> l).
Proof.
  revert st. induction l as [|it l IH]; intros st; simpl.
  - by rewrite app_nil_r.
  - destruct (IH (prep_step args noise st it)) as (HX & Hy & Hc).
    rewrite HX, Hy, Hc. simpl. by rewrite <- app_assoc.
Qed.

Lemma prep_loop_X args (dataset : list (Img * label_map)) :
  acc_X (prep_loop args dataset) = item_features args <$> dataset.
Proof.
  unfold prep_loop.
  destruct (prep_fold_fields args (make_noise randn args)
              (enumerate dataset)
              (prep_init zero args (length dataset))) as (HX & _ & _).
  rewrite HX.
  apply (foldl_insert_all
           (λ it, collect_features
                    (feature_extractor it.1 (make_noise randn args)))).
  simpl. unfold zeros4. by rewrite length_replicate.
Qed.

Lemma prep_loop_y args (dataset : list (Img * label_map)) :
  acc_y (prep_loop args dataset) = item_labels args <$> dataset.
Proof.
  unfold prep_loop.
  destruct (prep_fold_fields args (make_noise randn args)
              (enumerate dataset)
              (prep_init zero args (length dataset))) as (_ & Hy & _).
  rewrite Hy.
  apply (foldl_insert_all
           (λ it : Img * label_map,
              pixel_map to_uint8
                (suppress_sparse (number_class args) (ignore_label args)
                   it.2))).
  simpl. unfold zeros3. by rewrite length_replicate.
Qed.

Lemma prep_loop_calls args (dataset : list (Img * label_map)) :
  calls (prep_loop args dataset)
  = (λ it, (it.1, make_noise randn args)) <$> dataset.
Proof.
  unfold prep_loop.
  destruct (prep_fold_fields args (make_noise randn args)
              (enumerate dataset)
              (prep_init zero args (length dataset))) as (_ & _ & Hc).
  rewrite Hc. simpl. unfold enumerate.
  change (λ it : nat * (Img * label_map), (it.2.1, make_noise randn args))
    with ((λ it : Img * label_map, (it.1, make_noise randn args))
          ∘ @snd nat (Img * label_map)).
  rewrite list_fmap_compose, snd_zip by (rewrite length_seq; lia). done.
Qed.


Lemma well_shaped_features args (dataset : list (Img * label_map)) :
  well_shaped args dataset →
  Forall (has_shape3 (dim2 args) (dim1 args) (dim0 args))
         (item_features args <$> dataset).
Proof.
  intros Hwf. apply Forall_fmap. eapply Forall_impl; [exact Hwf|].
  intros it [_ Hf]. apply Hf.
Qed.

Lemma well_shaped_labels args (dataset : list (Img * label_map)) :
  well_shaped args dataset →
  Forall (has_shape2 (dim0 args) (dim1 args)) (item_labels args <$> dataset).
Proof.
  intros Hwf. apply Forall_fmap. eapply Forall_impl; [exact Hwf|].
  intros it [Hl _]. simpl. unfold item_labels.
  apply has_shape2_pixel_map. rewrite suppress_sparse_relabel.
  by apply has_shape2_pixel_map.
Qed.

Lemma prep_flat_lengths args (dataset : list (Img * label_map)) :
  well_shaped args dataset →
  length (prep_flat args dataset).1 = length dataset * dim1 args * dim0 args
  ∧ length (prep_flat args dataset).2
    = length dataset * dim0 args * dim1 args.
Proof.
  intros Hwf. unfold prep_flat. simpl. split.
  - apply length_flatten_features.
  - unfold flatten_labels. rewrite prep_loop_y.
    rewrite (length_flatten_planes (dim0 args) (dim1 args))
      by by apply well_shaped_labels.
    by rewrite length_fmap.
Qed.

(** The ignore filter keeps the same positions of the two flattened
    tensors. *)
Lemma prepare_data_zip args (dataset : list (Img * label_map)) :
  zip (prepare_data args dataset).1 (prepare_data args dataset).2
  = filter (λ xl, xl.2 ≠ to_uint8 (ignore_label args))
           (zip (prep_flat args dataset).1 (prep_flat args dataset).2).
Proof.
  unfold prepare_data.
  destruct (prep_flat args dataset) as [X y]. simpl.
  rewrite <- mask_select_zip. apply mask_select_keep.
Qed.

(** C6. After the permute/reshape of line 76 the feature axis is last and
    each (image, pixel) coordinate is one row: for a dataset of square
    images that fits the accumulators, row [(k * S + i) * S + j] of the
    flattened feature matrix is the [D]-dimensional feature vector of pixel
    [(i, j)] of image [k], and element [(k * S + i) * S + j] of the
    flattened label vector is the stored label of that same pixel; the two
    have the same length, and the ignore filter removes a feature row and
    its label together: the returned pairs are the pairs of the two
    flattened tensors whose stored label differs from the ignore label as
    the [uint8] comparison sees it, reduced modulo 256. *)
Theorem flattened_rows_aligned (args : Args)
    (dataset : list (Img * label_map)) (k i j : nat) (it : Img * label_map) :
  well_shaped args dataset → dim1 args = dim0 args →
  dataset !! k = Some it → i < dim0 args → j < dim0 args →
  let r := (k * dim0 args + i) * dim0 args + j in
  let flat := prep_flat args dataset in
  (∃ row, flat.1 !! r = Some row
          ∧ length row = dim2 args
          ∧ ∀ c, c < dim2 args →
              row !! c
              = item_features args it !! c ≫= (λ plane, pixel plane i j))
  ∧ flat.2 !! r = pixel (item_labels args it) i j
  ∧ length flat.1 = length flat.2
  ∧ zip (prepare_data args dataset).1 (prepare_data args dataset).2
    = filter (λ xl, xl.2 ≠ to_uint8 (ignore_label args))
             (zip flat.1 flat.2).
Proof.
  intros Hwf Hsq Hk Hi Hj r flat. subst r flat.
  assert (Hkn : k < length dataset) by (by eapply lookup_lt_Some).
  split; [|split; [|split]].
  - unfold prep_flat. simpl. rewrite prep_loop_X, Hsq.
    destruct (flatten_features_lookup (length dataset) (dim2 args)
                (dim0 args) (dim0 args) (item_features args <$> dataset)
                k i j) as (row & Hrow & Hlen & Hcols); try done.
    { by rewrite length_fmap. }
    { rewrite <- Hsq at 1. by apply well_shaped_features. }
    exists row. split; [done|]. split; [done|].
    intros c Hc. rewrite (Hcols c Hc), list_lookup_fmap, Hk. done.
  - unfold prep_flat. simpl. unfold flatten_labels.
    rewrite prep_loop_y.
    pose proof (well_shaped_labels args dataset Hwf) as Hshape.
    rewrite Hsq in Hshape.
    rewrite (lookup_flatten_planes (dim0 args) (dim0 args)) by done.
    rewrite list_lookup_fmap, Hk. done.
  - destruct (prep_flat_lengths args dataset Hwf) as [-> ->]. lia.
  - apply prepare_data_zip.
Qed.


Local Abbreviation suppressed_labels := (@suppressed_labels Img).
Local Abbreviation kept_rows := (@kept_rows Img).

Lemma prep_flat_labels args (dataset : list (Img * label_map)) :
  (prep_flat args dataset).2
  = to_uint8 <$> concat (concat (suppressed_labels args dataset)).
Proof.
  unfold prep_flat. simpl. unfold flatten_labels.
  rewrite prep_loop_y, <- concat_concat_pixel_map.
  unfold suppressed_labels. rewrite <- list_fmap_compose. done.
Qed.

Lemma prepare_data_labels args (dataset : list (Img * label_map)) :
  (prepare_data args dataset).2
  = filter (λ v, v ≠ to_uint8 (ignore_label args)) (prep_flat args dataset).2.
Proof.
  unfold prepare_data.
  destruct (prep_flat args dataset) as [X y]. simpl.
  apply mask_select_labels.
Qed.

Lemma prepare_data_lengths args (dataset : list (Img * label_map)) :
  well_shaped args dataset →
  length (prepare_data args dataset).1 = length (prepare_data args dataset).2.
Proof.
  intros Hwf. destruct (prep_flat_lengths args dataset Hwf) as [HX Hy].
  unfold prepare_data.
  destruct (prep_flat args dataset) as [X y]. simpl in *.
  apply length_mask_select. lia.
Qed.

Lemma suppressed_labels_fit args (dataset : list (Img * label_map)) :
  fits_uint8 (ignore_label args) → labels_fit dataset →
  Forall (Forall (Forall fits_uint8)) (suppressed_labels args dataset).
Proof.
  intros Hign Hfit. unfold suppressed_labels.
  apply Forall_fmap. eapply Forall_impl; [exact Hfit|].
  intros it Hit. simpl. rewrite suppress_sparse_relabel.
  eapply Forall_pixel_map; [|exact Hit].
  intros v Hv. by apply relabel_fits.
Qed.

Lemma prep_flat_labels_fit args (dataset : list (Img * label_map)) :
  fits_uint8 (ignore_label args) → labels_fit dataset →
  (prep_flat args dataset).2 = concat (concat (suppressed_labels args dataset)).
Proof.
  intros Hign Hfit. rewrite prep_flat_labels.
  pose proof (suppressed_labels_fit args dataset Hign Hfit) as Hall.
  rewrite <- (list_fmap_id (concat (concat (suppressed_labels args dataset))))
    at 2.
  apply list_fmap_ext. intros i v Hv. simpl. apply to_uint8_fits.
  apply Forall_concat, Forall_concat in Hall.
  rewrite Forall_lookup in Hall. by apply (Hall i).
Qed.

Lemma length_kept_labels args (dataset : list (Img * label_map)) :
  length (filter (λ v, v ≠ ignore_label args)
            (concat (concat (suppressed_labels args dataset))))
  = kept_rows args dataset.
Proof. unfold kept_rows. apply length_filter_flatten. Qed.

(** C2, as amended. For a training dataset that fits the accumulators and
    whose label values and ignore label all lie in 0..255, [prepare_data]
    returns exactly the rows whose label after suppression differs from the
    ignore label: the flattened label vector is the flattened suppressed
    label maps, the returned pairs are its non-ignore positions, both
    returned tensors have as many rows as there are non-ignore pixels after
    suppression, summed over the images, and no returned label is the
    ignore label. *)
Theorem prepare_data_row_count (args : Args)
    (dataset : list (Img * label_map)) :
  well_shaped args dataset →
  fits_uint8 (ignore_label args) → labels_fit dataset →
  let r := prepare_data args dataset in
  let flat := prep_flat args dataset in
  flat.2 = concat (concat (suppressed_labels args dataset))
  ∧ zip r.1 r.2 = filter (λ xl, xl.2 ≠ ignore_label args) (zip flat.1 flat.2)
  ∧ length r.1 = kept_rows args dataset
  ∧ length r.2 = kept_rows args dataset
  ∧ Forall (λ v, v ≠ ignore_label args) r.2.
Proof.
  intros Hwf Hign Hfit r flat. subst r flat.
  assert (Hlen : length (prepare_data args dataset).2 = kept_rows args dataset).
  { rewrite prepare_data_labels, prep_flat_labels_fit by done.
    rewrite (to_uint8_fits _ Hign). apply length_kept_labels. }
  split; [by apply prep_flat_labels_fit|].
  split; [rewrite prepare_data_zip; by rewrite (to_uint8_fits _ Hign)|].
  split; [by rewrite prepare_data_lengths|].
  split; [done|].
  rewrite prepare_data_labels, (to_uint8_fits _ Hign).
  apply Forall_forall. intros v Hv.
  apply list_elem_of_filter in Hv. tauto.
Qed.

(** C10. The label accumulator is 8-bit unsigned: what the loop stores for
    an image is its suppressed label map with every value reduced modulo
    256, the flattened vector and the ignore filter work on the reduced
    values, values in 0..255 are stored exactly, and a value above 255 is
    stored as a different value in 0..255, on which the comparison with the
    ignore label is then made; that comparison is made in [uint8] too, so
    the stored values are compared with the ignore label reduced modulo
    256, which is the ignore label itself when it lies in 0..255. *)
Theorem label_accumulator_uint8 (args : Args)
    (dataset : list (Img * label_map)) :
  let reduced := (λ v : Z, (v mod 256)%Z) in
  let suppressed := suppressed_labels args dataset in
  acc_y (prep_loop args dataset) = pixel_map reduced <$> suppressed
  ∧ (prep_flat args dataset).2 = reduced <$> concat (concat suppressed)
  ∧ (prepare_data args dataset).2
    = filter (λ v, v ≠ reduced (ignore_label args))
             (reduced <$> concat (concat suppressed))
  ∧ (∀ v : Z, (0 ≤ v ≤ 255)%Z → reduced v = v)
  ∧ (∀ v : Z, (255 < v)%Z → reduced v ≠ v ∧ (0 ≤ reduced v ≤ 255)%Z).
Proof.
  intros reduced suppressed. subst reduced suppressed.
  split; [|split; [|split; [|split]]].
  - rewrite prep_loop_y. unfold suppressed_labels.
    rewrite <- list_fmap_compose. done.
  - apply prep_flat_labels.
  - rewrite prepare_data_labels, prep_flat_labels. done.
  - intros v Hv. apply Z.mod_small. lia.
  - intros v Hv. pose proof (Z.mod_pos_bound v 256). lia.
Qed.

End PrepareDataFacts.

(** ** [evaluation] *)


Section PipelineFacts.
Context {Img Noise Feat A Pred IoU : Type}.
Variable zero : A.
Variable randn : Z → nat → Noise.
Variable feature_extractor : Img → option Noise → Feat.
Variable collect_features : Feat → list (list (list A)).
Variable predict_labels : list (list A) → Pred * Q.
Variable compute_iou : list Pred → list label_map → IoU.

Local Abbreviation prep_loop :=
  (prep_loop zero randn feature_extractor collect_features).
Local Abbreviation prep_flat :=
  (prep_flat zero randn feature_extractor collect_features).
Local Abbreviation prepare_data :=
  (prepare_data zero randn feature_extractor collect_features).
Local Abbreviation well_shaped :=
  (well_shaped feature_extractor collect_features).
Local Abbreviation predict_image :=
  (predict_image feature_extractor collect_features predict_labels).
Local Abbreviation eval_step :=
  (eval_step feature_extractor collect_features predict_labels).
Local Abbreviation eval_loop :=
  (eval_loop randn feature_extractor collect_features predict_labels).
Local Abbreviation evaluation :=
  (evaluation randn feature_extractor collect_features predict_labels
     compute_iou).

Lemma eval_fold_fields args noise (l : list (Img * label_map)) st :
  let r := foldl (eval_step args noise) st l in
  preds r = preds st ++ ((λ it, (predict_image args noise it.1).1) <$> l)
  ∧ gts r = gts st ++ l.*2
  ∧ uncertainty_scores r
    = uncertainty_scores st ++ ((λ it, (predict_image args noise it.1).2) <$> l)
  ∧ eval_calls r = eval_calls st ++ ((λ it, (it.1, noise)) <$> l).
Proof.
  revert st. induction l as [|it l IH]; intros st; simpl.
  - by rewrite !app_nil_r.
  - destruct (IH (eval_step args noise st it)) as (Hp & Hg & Hu & Hc).
    rewrite Hp, Hg, Hu, Hc. simpl. by rewrite <- !app_assoc.
Qed.

Lemma eval_loop_fields args (dataset : list (Img * label_map)) :
  let noise := make_noise randn args in
  let st := eval_loop args dataset in
  preds st = (λ it, (predict_image args noise it.1).1) <$> dataset
  ∧ gts st = dataset.*2
  ∧ uncertainty_scores st
    = (λ it, (predict_image args noise it.1).2) <$> dataset
  ∧ eval_calls st = (λ it, (it.1, noise)) <$> dataset.
Proof.
  apply (eval_fold_fields args (make_noise randn args) dataset eval_init).
Qed.


(** C7. The noise is made by the same procedure in [prepare_data] (lines
    53-59) and in [evaluation] (lines 92-97) and handed to the feature
    extractor with every image: the feature tensors that [prepare_data]
    stores and the predictions and scores of [evaluation] are those of the
    extractor called with that one noise value, once per image; with
    [share_noise] enabled it is the tensor drawn from the configured seed,
    the same for all images and for both phases, and equal between two runs
    with equal seed and configuration; with [share_noise] disabled or
    absent no noise is handed over in either phase. *)
Theorem shared_noise_policy (args args' : Args)
    (train_set test_set : list (Img * label_map)) :
  let noise := make_noise randn args in
  let predicted (it : Img * label_map) :=
    predict_labels
      (transpose (dim0 args * dim1 args)
         ((λ plane, concat plane)
            <$> collect_features (feature_extractor it.1 noise))) in
  acc_X (prep_loop args train_set)
  = (λ it, collect_features (feature_extractor it.1 noise)) <$> train_set
  ∧ calls (prep_loop args train_set) = (λ it, (it.1, noise)) <$> train_set
  ∧ preds (eval_loop args test_set) = (λ it, (predicted it).1) <$> test_set
  ∧ uncertainty_scores (eval_loop args test_set)
    = (λ it, (predicted it).2) <$> test_set
  ∧ eval_calls (eval_loop args test_set) = (λ it, (it.1, noise)) <$> test_set
  ∧ eval_noise randn args = noise
  ∧ (share_noise args = Some true →
     noise = Some (randn (seed args) (image_size args)))
  ∧ (share_noise args ≠ Some true → noise = None)
  ∧ (share_noise args' = share_noise args → seed args' = seed args →
     dim args' = dim args →
     make_noise randn args' = noise ∧ eval_noise randn args' = noise).
Proof.
  intros noise predicted. subst noise predicted.
  destruct (eval_loop_fields args test_set) as (Hp & _ & Hu & Hc).
  split; [apply prep_loop_X|].
  split; [apply prep_loop_calls|].
  split; [exact Hp|]. split; [exact Hu|]. split; [exact Hc|].
  split; [reflexivity|].
  unfold eval_noise, make_noise, image_size, dim0.
  split; [by intros ->|].
  split.
  - destruct (share_noise args) as [[]|]; done.
  - intros -> -> ->. done.
Qed.

Lemma sparse_pixel_ignored nc ign (label : label_map) (i j : nat) (c : Z) :
  pixel label i j = Some c → sparse_class nc ign label c →
  pixel (suppress_sparse nc ign label) i j = Some ign.
Proof.
  intros Hp Hs. rewrite suppress_sparse_relabel, pixel_pixel_map, Hp. simpl.
  unfold relabel. by rewrite decide_True.
Qed.

(** C5, as amended. Pixels that sparse-label suppression relabels are
    excluded from the training table: in a training dataset that fits the
    accumulators, with labels in 0..255, every pixel of a sparse class
    carries the ignore label after suppression, and the returned table is
    made of the positions whose suppressed label is not the ignore label.
    [evaluation] applies no suppression: the ground truths that it hands to
    [compute_iou] are the label maps of the test dataset, unchanged. *)
Theorem suppressed_pixels_excluded (args : Args)
    (train_set test_set : list (Img * label_map)) :
  well_shaped args train_set →
  fits_uint8 (ignore_label args) → labels_fit train_set →
  let r := prepare_data args train_set in
  let flat := prep_flat args train_set in
  let st := eval_loop args test_set in
  (∀ k it i j c,
     train_set !! k = Some it → pixel it.2 i j = Some c →
     sparse_class (number_class args) (ignore_label args) it.2 c →
     pixel (suppress_sparse (number_class args) (ignore_label args) it.2) i j
     = Some (ignore_label args))
  ∧ flat.2 = concat (concat (suppressed_labels args train_set))
  ∧ zip r.1 r.2 = filter (λ xl, xl.2 ≠ ignore_label args) (zip flat.1 flat.2)
  ∧ Forall (λ v, v ≠ ignore_label args) r.2
  ∧ gts st = test_set.*2
  ∧ ∀ res, evaluation args test_set = Returned res →
           res.1 = compute_iou (preds st) (test_set.*2).
Proof.
  intros Hwf Hign Hfit r flat st. subst r flat st.
  split; [|split; [|split; [|split; [|split]]]].
  - intros k it i j c _ Hp Hs. by apply sparse_pixel_ignored with c.
  - by apply prep_flat_labels_fit.
  - rewrite prepare_data_zip. by rewrite (to_uint8_fits _ Hign).
  - rewrite prepare_data_labels, (to_uint8_fits _ Hign).
    apply Forall_forall. intros v Hv.
    apply list_elem_of_filter in Hv. tauto.
  - apply eval_loop_fields.
  - intros res. unfold evaluation.
    destruct (eval_loop_fields args test_set) as (_ & <- & _).
    destruct (mean_uncertainty _); [|done]. by intros [= <-].
Qed.

End PipelineFacts.

(** ** The training loop and its early stopping *)

Section TrainerFacts.
Context {Loss : Type}.
Variable loss_lt : Loss → Loss → bool.
Variable sentinel : Loss.

Local Abbreviation state := (@train_state Loss).
Local Abbreviation observe := (observe loss_lt).
Local Abbreviation batch_step := (batch_step loss_lt).
Local Abbreviation run_epoch := (run_epoch loss_lt).
Local Abbreviation run_epochs := (run_epochs loss_lt).
Local Abbreviation run_checked := (run_checked loss_lt).
Local Abbreviation train_classifier := (train_classifier loss_lt sentinel).
Local Abbreviation warm_state := (warm_state sentinel).

Lemma batch_step_warm (e : nat) (loss : Loss) (s : state) :
  e ≤ 3 → batch_step e loss s = (count_step s, false).
Proof.
  intros He. unfold batch_step. rewrite decide_False by lia. done.
Qed.

Lemma batch_step_checked (e : nat) (loss : Loss) (s : state) :
  3 < e → batch_step e loss s = check_stop (observe loss (count_step s)).
Proof.
  intros He. unfold batch_step. by rewrite decide_True.
Qed.

Lemma run_epoch_warm (e : nat) (losses : list Loss) (s : state) :
  e ≤ 3 →
  run_epoch e losses s
  = {| iteration := iteration s + length losses;
       break_count := break_count s; best_loss := best_loss s;
       stop_sign := stop_sign s |}.
Proof.
  intros He. revert s. induction losses as [|loss rest IH]; intros s.
  - destruct s. simpl. f_equal. lia.
  - cbn [run_epoch]. rewrite batch_step_warm by done. simpl.
    rewrite IH. simpl. f_equal. lia.
Qed.

Lemma run_epoch_checked (e : nat) (losses : list Loss) (s : state) :
  3 < e → run_epoch e losses s = run_checked losses s.
Proof.
  intros He. revert s. induction losses as [|loss rest IH]; intros s; [done|].
  cbn [run_epoch run_checked].
  rewrite batch_step_checked by done.
  destruct (check_stop _) as [s' []]; simpl; [done|apply IH].
Qed.

Lemma check_stop_flag (s : state) :
  stop_sign s = false → stop_sign (check_stop s).1 = (check_stop s).2.
Proof.
  intros Hs. unfold check_stop. destruct (decide _); simpl; done.
Qed.

Lemma observe_flag (loss : Loss) (s : state) :
  stop_sign (observe loss (count_step s)) = stop_sign s.
Proof. unfold observe. by destruct (loss_lt _ _). Qed.

(** Once the check has fired the loop is over: what follows is not run. *)
Lemma run_checked_app (l1 l2 : list Loss) (s : state) :
  stop_sign s = false →
  run_checked (l1 ++ l2) s
  = if stop_sign (run_checked l1 s) then run_checked l1 s
    else run_checked l2 (run_checked l1 s).
Proof.
  revert s. induction l1 as [|loss rest IH]; intros s Hs.
  - simpl. by rewrite Hs.
  - cbn [app run_checked].
    pose proof (check_stop_flag (observe loss (count_step s))) as Hflag.
    rewrite observe_flag in Hflag. specialize (Hflag Hs).
    destruct (check_stop _) as [s' b]; simpl in *. subst b.
    destruct (stop_sign s') eqn:Hs'; [by rewrite Hs'|]. by apply IH.
Qed.

Lemma run_checked_iteration (l : list Loss) (s : state) :
  iteration (run_checked l s) ≤ iteration s + length l.
Proof.
  revert s. induction l as [|loss rest IH]; intros s; [simpl; lia|].
  cbn [run_checked].
  assert (Hit : iteration (check_stop (observe loss (count_step s))).1
                = S (iteration s)).
  { unfold check_stop, observe.
    destruct (loss_lt _ _); destruct (decide _); done. }
  destruct (check_stop _) as [s' b]; simpl in *.
  destruct b; [simpl; lia|]. specialize (IH s'). simpl. lia.
Qed.

(** The nested loops from epoch [e > 3] on are the loop over the joined
    steps. *)
Lemma run_epochs_checked (loss_of : nat → list Loss) (e n : nat)
    (s : state) :
  3 < e → stop_sign s = false →
  run_epochs loss_of (seq e n) s = run_checked (steps_of loss_of e n) s.
Proof.
  revert e s. induction n as [|n IH]; intros e s He Hs; [done|].
  unfold steps_of. cbn [seq fmap list_fmap concat run_epochs].
  rewrite run_epoch_checked by done. rewrite run_checked_app by done.
  destruct (stop_sign (run_checked (loss_of e) s)) eqn:Hs'; [done|].
  apply IH; [lia|done].
Qed.

Lemma run_epochs_warm (loss_of : nat → list Loss) :
  run_epochs loss_of (seq 0 4) (train_init sentinel) = warm_state loss_of.
Proof.
  unfold warm_state, steps_of.
  cbn [seq fmap list_fmap concat run_epochs].
  rewrite !run_epoch_warm by lia. simpl.
  rewrite !length_app. simpl. f_equal. lia.
Qed.

Lemma run_epochs_app (loss_of : nat → list Loss) (es1 es2 : list nat)
    (s : state) :
  stop_sign (run_epochs loss_of es1 s) = false →
  run_epochs loss_of (es1 ++ es2) s
  = run_epochs loss_of es2 (run_epochs loss_of es1 s).
Proof.
  revert s. induction es1 as [|e es1 IH]; intros s; [done|].
  cbn [app run_epochs].
  destruct (stop_sign (run_epoch e (loss_of e) s)) eqn:Hs.
  - intros Hstop. rewrite Hs in Hstop. done.
  - apply IH.
Qed.

Lemma train_classifier_checked (loss_of : nat → list Loss) :
  train_classifier loss_of
  = run_checked (steps_of loss_of 4 96) (warm_state loss_of).
Proof.
  unfold train_classifier.
  change (seq 0 100) with (seq 0 4 ++ seq 4 96).
  rewrite run_epochs_app; rewrite run_epochs_warm; [|done].
  apply run_epochs_checked; [lia|done].
Qed.

(** A run of steps none of which improves on the best loss fires the check
    as soon as the counter passes 50. *)
Lemma stalled_run_stops (v : Loss) (n : nat) (s : state) :
  loss_lt v (best_loss s) = false → stop_sign s = false →
  50 < break_count s + S n →
  stop_sign (run_checked (replicate (S n) v) s) = true.
Proof.
  revert s. induction n as [|n IH]; intros s Hv Hs Hn;
    cbn [replicate run_checked];
    unfold observe; simpl; rewrite Hv; unfold check_stop; simpl;
    destruct (decide (50 < S (break_count s))) as [Hb|Hb]; simpl;
    try done; try lia.
  apply (IH {| iteration := S (iteration s);
               break_count := S (break_count s);
               best_loss := best_loss s; stop_sign := stop_sign s |});
    simpl; [done|done|lia].
Qed.

Lemma run_checked_step (loss : Loss) (rest : list Loss) (s s' : state) :
  check_stop (observe loss (count_step s)) = (s', false) →
  run_checked (loss :: rest) s = run_checked rest s'.
Proof. intros Hstep. cbn [run_checked]. by rewrite Hstep. Qed.

(** A run of 52 equal losses fires the check, whatever came before. *)
Lemma flat_run_stops (v : Loss) (s : state) :
  (∀ x, loss_lt x x = false) → stop_sign s = false →
  stop_sign (run_checked (replicate 52 v) s) = true.
Proof.
  intros Hirr Hs.
  destruct (loss_lt v (best_loss s)) eqn:Hv.
  - change (replicate 52 v) with (v :: replicate 51 v).
    rewrite (run_checked_step v (replicate 51 v) s
               {| iteration := S (iteration s); break_count := 0;
                  best_loss := v; stop_sign := stop_sign s |}).
    + apply (stalled_run_stops v 50); [apply Hirr|done|cbn; lia].
    + unfold observe, check_stop, count_step. cbn. rewrite Hv. cbn.
      destruct (decide (50 < 0)); [lia|done].
  - apply (stalled_run_stops v 51); [done|done|lia].
Qed.

Lemma stops_within (l1 l2 : list Loss) (s : state) :
  stop_sign s = false → stop_sign (run_checked l1 s) = true →
  stop_sign (run_checked (l1 ++ l2) s) = true
  ∧ iteration (run_checked (l1 ++ l2) s) ≤ iteration s + length l1.
Proof.
  intros Hs Hstop. rewrite run_checked_app, Hstop by done.
  split; [done|apply run_checked_iteration].
Qed.

Lemma stops_after_prefix (pre run : list Loss) (s : state) :
  stop_sign s = false →
  (stop_sign (run_checked pre s) = false →
   stop_sign (run_checked run (run_checked pre s)) = true) →
  stop_sign (run_checked (pre ++ run) s) = true.
Proof.
  intros Hs Hrun. rewrite run_checked_app by done.
  destruct (stop_sign (run_checked pre s)) eqn:Hpre; [done|]. by apply Hrun.
Qed.

(** C3, as amended. In epochs 0 to 3 a step only counts itself: no check,
    no change of the counter, the best loss or the stop flag, and epoch 4
    starts from the initial values. From epoch 4 on, a step with loss [L]
    sets the best loss to [L] and the counter to 0 if [L] is below the best
    loss, and otherwise adds 1 to the counter; if the counter then exceeds
    50 the stop flag is set and the loop over the batches is left, and no
    further epoch is run: the whole training is the loop over the joined
    steps of epochs 4 to 99 that ends at the first step whose check fires.
    A loss sequence that after epoch 3 stays flat for 52 consecutive steps,
    or for 51 consecutive steps at a value not below the best loss at the
    start of that run, makes training stop within the run. *)
Theorem early_stopping_policy (loss_of : nat → list Loss) :
  let steps := steps_of loss_of 4 96 in
  let result := train_classifier loss_of in
  (∀ e loss (s : state), e ≤ 3 → batch_step e loss s = (count_step s, false))
  ∧ run_epochs loss_of (seq 0 4) (train_init sentinel) = warm_state loss_of
  ∧ (∀ e loss (s : state), 3 < e →
       let r := batch_step e loss s in
       iteration r.1 = S (iteration s)
       ∧ (if loss_lt loss (best_loss s)
          then best_loss r.1 = loss ∧ break_count r.1 = 0
          else best_loss r.1 = best_loss s
               ∧ break_count r.1 = S (break_count s))
       ∧ (if decide (50 < break_count r.1)
          then stop_sign r.1 = true ∧ r.2 = true
          else stop_sign r.1 = stop_sign s ∧ r.2 = false))
  ∧ (∀ e loss rest (s : state),
       (batch_step e loss s).2 = true →
       run_epoch e (loss :: rest) s = (batch_step e loss s).1)
  ∧ (∀ e rest (s : state),
       stop_sign (run_epoch e (loss_of e) s) = true →
       run_epochs loss_of (e :: rest) s = run_epoch e (loss_of e) s)
  ∧ result = run_checked steps (warm_state loss_of)
  ∧ (∀ pre v post,
       (∀ x, loss_lt x x = false) →
       steps = pre ++ replicate 52 v ++ post →
       stop_sign result = true
       ∧ iteration result ≤ length (steps_of loss_of 0 4) + length pre + 52)
  ∧ (∀ pre v post,
       steps = pre ++ replicate 51 v ++ post →
       loss_lt v (best_loss (run_checked pre (warm_state loss_of))) = false →
       stop_sign result = true
       ∧ iteration result ≤ length (steps_of loss_of 0 4) + length pre + 51).
Proof.
  intros steps result. subst steps result.
  split; [intros; by apply batch_step_warm|].
  split; [apply run_epochs_warm|].
  split.
  { intros e loss s He r. subst r. rewrite batch_step_checked by done.
    unfold check_stop, observe. cbn.
    destruct (loss_lt loss (best_loss s)); cbn;
      repeat case_decide; cbn in *; repeat split; try done; lia. }
  split.
  { intros e loss rest s Hb. cbn [run_epoch]. by rewrite Hb. }
  split.
  { intros e rest s Hstop. cbn [run_epochs]. by rewrite Hstop. }
  split; [apply train_classifier_checked|].
  split.
  - intros pre v post Hirr Hsteps.
    rewrite train_classifier_checked, Hsteps, app_assoc.
    destruct (stops_within (pre ++ replicate 52 v) post (warm_state loss_of))
      as [Hstop Hit]; [done| |].
    { apply stops_after_prefix; [done|]. intros Hpre.
      by apply flat_run_stops. }
    split; [done|]. rewrite length_app, length_replicate in Hit.
    change (iteration (warm_state loss_of))
      with (length (steps_of loss_of 0 4)) in Hit.
    lia.
  - intros pre v post Hsteps Hv.
    rewrite train_classifier_checked, Hsteps, app_assoc.
    destruct (stops_within (pre ++ replicate 51 v) post (warm_state loss_of))
      as [Hstop Hit]; [done| |].
    { apply stops_after_prefix; [done|]. intros Hpre.
      apply (stalled_run_stops v 50); [done|done|lia]. }
    split; [done|]. rewrite length_app, length_replicate in Hit.
    change (iteration (warm_state loss_of))
      with (length (steps_of loss_of 0 4)) in Hit.
    lia.
Qed.

End TrainerFacts.

(** ** Resumption *)

Lemma train_fold_fields (dir : string) (l : list nat) (st : run_log) :
  let r := foldl (train_member dir) st l in
  trained r = trained st ++ l
  ∧ saved r = saved st ++ (model_path dir <$> l)
  ∧ ∀ p, p ∈ files r ↔ p ∈ files st ∨ p ∈ model_path dir <$> l.
Proof.
  revert st. induction l as [|m l IH]; intros st; simpl.
  - rewrite !app_nil_r. split; [done|]. split; [done|].
    intros p. rewrite elem_of_nil. tauto.
  - destruct (IH (train_member dir st m)) as (Ht & Hs & Hf).
    rewrite Ht, Hs. simpl. rewrite <- !app_assoc.
    split; [done|]. split; [done|].
    intros p. rewrite Hf. simpl.
    rewrite elem_of_cons, elem_of_union, elem_of_singleton. tauto.
Qed.

Lemma train_fields (dir : string) (start n : nat) (fs : gset string) :
  let r := train dir start n fs in
  trained r = seq start (n - start)
  ∧ saved r = model_path dir <$> seq start (n - start)
  ∧ ∀ p, p ∈ files r ↔ p ∈ fs ∨ ∃ i, start ≤ i < n ∧ p = model_path dir i.
Proof.
  unfold train.
  destruct (train_fold_fields dir (seq start (n - start))
              {| files := fs; trained := []; saved := [] |})
    as (Ht & Hs & Hf).
  split; [done|]. split; [done|].
  intros p. rewrite Hf. simpl. rewrite list_elem_of_fmap.
  split; (intros [?|(i & Hp & Hi)]; [by left|right; exists i]).
  - apply elem_of_seq in Hi. split; [lia|done].
  - split; [tauto|]. apply elem_of_seq. lia.
Qed.

Lemma all_true_pretrained (fs : gset string) (dir : string) (n : nat) :
  all_true (pretrained fs dir n) = true
  ↔ ∀ i, i < n → model_path dir i ∈ fs.
Proof.
  unfold all_true, pretrained. rewrite forallb_forall. split.
  - intros H i Hi.
    specialize (H (bool_decide (model_path dir i ∈ fs))).
    rewrite <- bool_decide_eq_true. apply H.
    apply list_elem_of_In, list_elem_of_fmap.
    exists i. split; [done|]. apply elem_of_seq. lia.
  - intros H b Hb.
    apply list_elem_of_In, list_elem_of_fmap in Hb as (i & -> & Hi).
    apply elem_of_seq in Hi. unfold id.
    rewrite bool_decide_eq_true. apply H. lia.
Qed.

Lemma sum_true_below (k n : nat) :
  sum_true ((λ i, bool_decide (i < k)) <$> seq 0 n) = k `min` n.
Proof.
  unfold sum_true. induction n as [|n IH]; [simpl; lia|].
  rewrite seq_S, fmap_app, filter_app, length_app, IH. simpl.
  rewrite filter_cons, filter_nil.
  destruct (decide (n < k)) as [Hn|Hn].
  - rewrite bool_decide_eq_true_2 by done.
    rewrite decide_True by done. simpl. lia.
  - rewrite bool_decide_eq_false_2 by done.
    rewrite decide_False by done. simpl. lia.
Qed.

Lemma sum_true_prefix (args : Args) (fs : gset string) (k : nat) :
  prefix_trained args fs k →
  sum_true (pretrained fs (exp_dir args) (model_num args)) = k.
Proof.
  intros [Hk Hfs]. unfold pretrained.
  rewrite (list_fmap_ext _ (λ i, bool_decide (i < k))).
  - rewrite sum_true_below. lia.
  - intros j i Hi. apply lookup_seq in Hi as [-> Hlt]. simpl.
    apply bool_decide_ext, Hfs. lia.
Qed.

(** From a directory whose files are those of the first [k] members, the
    run trains the missing members [k], ..., [model_num - 1] in order, and
    afterwards every member has its file. *)
Lemma main_training_prefix (args : Args) (fs : gset string) (k : nat) :
  prefix_trained args fs k →
  let r := main_training args fs in
  trained r = seq k (model_num args - k)
  ∧ ∀ i, i < model_num args → model_path (exp_dir args) i ∈ files r.
Proof.
  intros Hpre r. subst r. unfold main_training.
  destruct (all_true _) eqn:Hall.
  - rewrite all_true_pretrained in Hall. simpl.
    destruct Hpre as [Hk Hfs].
    assert (k = model_num args) as ->.
    { destruct (decide (k = model_num args)) as [|Hne]; [done|].
      assert (k < model_num args) as Hlt by lia.
      apply Hall, Hfs in Hlt; lia. }
    rewrite Nat.sub_diag. done.
  - rewrite (sum_true_prefix args fs k Hpre).
    destruct (train_fields (exp_dir args) k (model_num args) fs)
      as (Ht & _ & Hf).
    split; [done|]. intros i Hi. apply Hf.
    destruct Hpre as [Hk Hfs].
    destruct (decide (i < k)) as [Hlt|Hge].
    + left. by apply Hfs.
    + right. exists i. split; [lia|done].
Qed.

Lemma filter_ext_elem {T} (P Q : T → Prop) `{∀ x, Decision (P x)}
    `{∀ x, Decision (Q x)} (l : list T) :
  (∀ x, x ∈ l → (P x ↔ Q x)) → filter P l = filter Q l.
Proof.
  induction l as [|x l IH]; intros Hl; [done|].
  rewrite !filter_cons.
  assert (Hx : P x ↔ Q x) by (apply Hl; left).
  assert (Htl : filter P l = filter Q l).
  { apply IH. intros y Hy. apply Hl. by right. }
  destruct (decide (P x)), (decide (Q x)); rewrite ?Htl; tauto.
Qed.

Lemma filter_seq_from (k n : nat) :
  filter (λ i, ¬ i < k) (seq 0 n) = seq k (n - k).
Proof.
  induction n as [|n IH]; [done|].
  rewrite seq_S, filter_app, IH, filter_cons, filter_nil. simpl.
  destruct (decide (¬ n < k)) as [Hn|Hn].
  - replace (S n - k) with (S (n - k)) by lia.
    rewrite seq_S. do 2 f_equal. lia.
  - replace (S n - k) with 0 by lia. replace (n - k) with 0 by lia. done.
Qed.

(** In that case the members trained are exactly the missing ones. *)
Lemma main_training_prefix_missing (args : Args) (fs : gset string)
    (k : nat) :
  prefix_trained args fs k →
  trained (main_training args fs) = missing_members args fs.
Proof.
  intros Hpre.
  destruct (main_training_prefix args fs k Hpre) as [-> _].
  unfold missing_members. rewrite <- filter_seq_from.
  destruct Hpre as [_ Hfs].
  apply filter_ext_elem. intros i Hi. apply elem_of_seq in Hi.
  rewrite Hfs by lia. done.
Qed.

(** When every member has its file, the run trains and writes nothing. *)
Lemma main_training_complete (args : Args) (fs : gset string) :
  (∀ i, i < model_num args → model_path (exp_dir args) i ∈ fs) →
  main_training args fs = {| files := fs; trained := []; saved := [] |}.
Proof.
  intros Hall. unfold main_training.
  rewrite <- all_true_pretrained in Hall. by rewrite Hall.
Qed.

(** C8. Resumption is idempotent: whenever the first run ends with the
    file of every member in place, as a completed run does, a second run on
    the resulting directory trains no member, saves nothing and leaves the
    directory as it is; and the first run does end that way from every
    directory in which the existing files are those of the first [k]
    members, the empty directory included. *)
Theorem resumption_idempotent (args : Args) (fs : gset string) :
  let run1 := main_training args fs in
  let run2 := main_training args (files run1) in
  let complete (r : run_log) :=
    ∀ i, i < model_num args → model_path (exp_dir args) i ∈ files r in
  (complete run1 →
   trained run2 = [] ∧ saved run2 = [] ∧ files run2 = files run1)
  ∧ (∀ k, prefix_trained args fs k →
       complete run1 ∧ trained run2 = [] ∧ files run2 = files run1).
Proof.
  intros run1 run2 complete. subst run1 run2 complete. simpl.
  assert (Hsecond : (∀ i, i < model_num args →
                       model_path (exp_dir args) i
                       ∈ files (main_training args fs)) →
            main_training args (files (main_training args fs))
            = {| files := files (main_training args fs);
                 trained := []; saved := [] |}).
  { apply main_training_complete. }
  split.
  - intros Hall. by rewrite (Hsecond Hall).
  - intros k Hpre.
    destruct (main_training_prefix args fs k Hpre) as [_ Hall].
    split; [exact Hall|]. by rewrite (Hsecond Hall).
Qed.

(** ** The properties on concrete runs *)

Ltac shape_tac :=
  repeat first [ split | constructor | reflexivity | intros ? ].

Lemma scenario_well_shaped :
  well_shaped demo_extractor (demo_collect 3 4) scenario_args scenario_images.
Proof. unfold well_shaped. shape_tac. Defined.

Lemma sparse_well_shaped :
  well_shaped demo_extractor (demo_collect 2 5) sparse_args sparse_images.
Proof. unfold well_shaped. shape_tac. Defined.

Lemma wide_well_shaped :
  well_shaped demo_extractor (demo_collect 1 5) wide_args wide_images.
Proof. unfold well_shaped. shape_tac. Defined.


Lemma prepare_data_row_count_witness :
  well_shaped demo_extractor (demo_collect 2 5) sparse_args sparse_images
  ∧ fits_uint8 (ignore_label sparse_args)
  ∧ labels_fit sparse_images
  ∧ kept_rows sparse_args sparse_images = 21
  ∧ length (prepare_data 0%Z demo_randn demo_extractor (demo_collect 2 5)
              sparse_args sparse_images).1 = 21
  ∧ length (prepare_data 0%Z demo_randn demo_extractor (demo_collect 2 5)
              sparse_args sparse_images).2 = 21.
Proof.
  assert (Hfit : fits_uint8 (ignore_label sparse_args)) by (vm_compute; done).
  assert (Hlabels : labels_fit sparse_images).
  { unfold labels_fit. repeat constructor; vm_compute; done. }
  split; [exact sparse_well_shaped|]. split; [exact Hfit|].
  split; [exact Hlabels|]. split; [reflexivity|].
  destruct (prepare_data_row_count 0%Z demo_randn demo_extractor
              (demo_collect 2 5) sparse_args sparse_images
              sparse_well_shaped Hfit Hlabels) as (_ & _ & HX & Hy & _).
  split; [exact HX|exact Hy].
Defined.

(** With 257 classes and ignore label 0, the 25 pixels of class 256 of
    [wide_label] are not ignore pixels after suppression, but their stored
    labels are 0 and [prepare_data] returns no row. *)
Lemma prepare_data_row_count_counterexample :
  well_shaped demo_extractor (demo_collect 1 5) wide_args wide_images
  ∧ suppressed_labels wide_args wide_images = [wide_label]
  ∧ kept_rows wide_args wide_images = 25
  ∧ prepare_data 0%Z demo_randn demo_extractor (demo_collect 1 5)
      wide_args wide_images = ([], [])
  ∧ length (prepare_data 0%Z demo_randn demo_extractor (demo_collect 1 5)
              wide_args wide_images).2
    ≠ kept_rows wide_args wide_images.
Proof.
  split; [exact wide_well_shaped|].
  split; [vm_compute; reflexivity|].
  split; [vm_compute; reflexivity|].
  split; [vm_compute; reflexivity|].
  vm_compute. discriminate.
Qed.

(** Row 30 of the flattened scenario table belongs to pixel (3, 2) of the
    second image. *)
Lemma flattened_rows_aligned_witness :
  well_shaped demo_extractor (demo_collect 3 4) scenario_args scenario_images
  ∧ dim1 scenario_args = dim0 scenario_args
  ∧ 3 < dim0 scenario_args ∧ 2 < dim0 scenario_args
  ∧ (prep_flat 0%Z demo_randn demo_extractor (demo_collect 3 4)
       scenario_args scenario_images).1 !! 30
    = Some [1032; 1132; 1232]%Z
  ∧ (prep_flat 0%Z demo_randn demo_extractor (demo_collect 3 4)
       scenario_args scenario_images).2 !! 30
    = pixel (item_labels scenario_args
               (1, [ [1; 1; 1; 1]; [1; 1; 2; 2]; [2; 2; 2; 2];
                     [2; 2; 2; 2] ]%Z)) 3 2.
Proof.
  split; [exact scenario_well_shaped|]. split; [reflexivity|].
  split; [vm_compute; lia|]. split; [vm_compute; lia|].
  destruct (flattened_rows_aligned 0%Z demo_randn demo_extractor
              (demo_collect 3 4) scenario_args scenario_images 1 3 2
              (1, [ [1; 1; 1; 1]; [1; 1; 2; 2]; [2; 2; 2; 2];
                    [2; 2; 2; 2] ]%Z)
              scenario_well_shaped)
    as (_ & Hy & _); [reflexivity|reflexivity|vm_compute; lia|vm_compute; lia|].
  split; [vm_compute; reflexivity|exact Hy].
Defined.

(** With ignore label -1 the comparison is made with 255: of the 25 pixels
    of [wrap_label], the value 255, the value 511 (stored as 255) and the
    two suppressed pixels of class 2 (given -1, stored as 255) are dropped,
    and the 21 pixels of class 0 are returned. *)
Lemma label_accumulator_uint8_witness :
  (255 < 511)%Z ∧ (511 mod 256)%Z ≠ 511%Z
  ∧ acc_y (prep_loop 0%Z demo_randn demo_extractor (demo_collect 1 5)
             wrap_args wrap_images)
    = [ [ [0; 0; 0; 0; 0]; [0; 0; 0; 0; 0]; [0; 0; 0; 0; 0];
          [0; 0; 0; 0; 0]; [0; 255; 255; 255; 255] ]%Z ]
  ∧ (prepare_data 0%Z demo_randn demo_extractor (demo_collect 1 5)
       wrap_args wrap_images).2
    = replicate 21 0%Z.
Proof.
  destruct (label_accumulator_uint8 0%Z demo_randn demo_extractor
              (demo_collect 1 5) wrap_args wrap_images)
    as (Hstored & _ & Hkept & _ & Hwide).
  split; [lia|]. split; [apply (Hwide 511%Z); lia|].
  split.
  - rewrite Hstored. vm_compute. reflexivity.
  - rewrite Hkept. vm_compute. reflexivity.
Defined.


(** The scenario run shares the noise drawn from seed 0 at size 4; with an
    extractor whose result shows the noise, the stored features and the
    predictions are those of the images moved up by 8. *)
Lemma shared_noise_policy_witness :
  share_noise scenario_args = Some true
  ∧ make_noise demo_randn scenario_args = Some (0%Z, 4)
  ∧ acc_X (prep_loop 0%Z demo_randn noisy_extractor (demo_collect 3 4)
             scenario_args scenario_images)
    = [demo_collect 3 4 8; demo_collect 3 4 9]
  ∧ calls (prep_loop 0%Z demo_randn noisy_extractor (demo_collect 3 4)
             scenario_args scenario_images)
    = [(0, Some (0%Z, 4)); (1, Some (0%Z, 4))]
  ∧ uncertainty_scores
      (eval_loop demo_randn noisy_extractor (demo_collect 3 4) demo_predict
         scenario_args scenario_images)
    = [inject_Z 8000; inject_Z 9000]
  ∧ eval_calls (eval_loop demo_randn noisy_extractor (demo_collect 3 4)
                  demo_predict scenario_args scenario_images)
    = [(0, Some (0%Z, 4)); (1, Some (0%Z, 4))].
Proof.
  destruct (shared_noise_policy 0%Z demo_randn noisy_extractor
              (demo_collect 3 4) demo_predict scenario_args scenario_args
              scenario_images scenario_images)
    as (HX & Hprep & _ & Hscores & Heval & _ & Hon & _ & _).
  split; [reflexivity|]. split; [apply Hon; reflexivity|].
  split; [exact HX|]. split; [exact Hprep|].
  split; [exact Hscores|exact Heval].
Defined.

(** In the scenario every class of every image has fewer than 20 pixels:
    the ten pixels of class 1 carry 255 after suppression and the training
    table is empty. *)
Lemma suppressed_pixels_excluded_witness :
  well_shaped demo_extractor (demo_collect 3 4) scenario_args scenario_images
  ∧ fits_uint8 (ignore_label scenario_args)
  ∧ labels_fit scenario_images
  ∧ pixel (suppress_sparse 3 255
             [ [1; 1; 1; 1]; [1; 1; 2; 2]; [2; 2; 2; 2]; [2; 2; 2; 2] ]%Z)
          1 1 = Some 255%Z
  ∧ Forall (λ v, v ≠ 255%Z)
      (prepare_data 0%Z demo_randn demo_extractor (demo_collect 3 4)
         scenario_args scenario_images).2
  ∧ gts (eval_loop demo_randn demo_extractor (demo_collect 3 4) demo_predict
           scenario_args scenario_images)
    = scenario_images.*2.
Proof.
  assert (Hfit : fits_uint8 (ignore_label scenario_args))
    by (vm_compute; done).
  assert (Hlabels : labels_fit scenario_images).
  { unfold labels_fit. repeat constructor; vm_compute; done. }
  split; [exact scenario_well_shaped|]. split; [exact Hfit|].
  split; [exact Hlabels|].
  destruct (suppressed_pixels_excluded 0%Z demo_randn demo_extractor
              (demo_collect 3 4) demo_predict demo_iou scenario_args
              scenario_images scenario_images scenario_well_shaped Hfit
              Hlabels) as (Hsparse & _ & _ & Hkeep & Hgts & _).
  split; [|split; [exact Hkeep|exact Hgts]].
  apply (Hsparse 1
           (1, [ [1; 1; 1; 1]; [1; 1; 2; 2]; [2; 2; 2; 2]; [2; 2; 2; 2] ]%Z)
           1 1 1%Z); [reflexivity|reflexivity|].
  unfold sparse_class. vm_compute. repeat split; try lia; discriminate.
Defined.

(** With the scenario images as the test dataset, the ground truths that
    [evaluation] hands to [compute_iou] are not the suppressed label maps:
    they hold the ten pixels of class 1, which suppression would have
    turned into 255. *)
Lemma suppressed_pixels_excluded_counterexample :
  let st := eval_loop demo_randn demo_extractor (demo_collect 3 4)
              demo_predict scenario_args scenario_images in
  gts st ≠ suppressed_labels scenario_args scenario_images
  ∧ sum_list ((λ label, count_eq label 1) <$> gts st) = 10
  ∧ sum_list ((λ label, count_eq label 255) <$> gts st) = 0
  ∧ sum_list ((λ label, count_eq label 1)
                <$> suppressed_labels scenario_args scenario_images) = 0.
Proof.
  split; [vm_compute; discriminate|].
  split; [vm_compute; reflexivity|].
  split; vm_compute; reflexivity.
Qed.

(** One batch per epoch, losses 100, 99, 98, 97 in epochs 0 to 3, then 50
    for 52 epochs: training stops at the 52nd step of the plateau. *)
Lemma early_stopping_policy_witness :
  (∀ x : Z, (x <? x)%Z = false)
  ∧ steps_of (plateau_losses 52) 4 96
    = [] ++ replicate 52 50%Z ++ steps_of (plateau_losses 52) 56 44
  ∧ stop_sign (train_classifier Z.ltb 10000000%Z (plateau_losses 52)) = true
  ∧ iteration (train_classifier Z.ltb 10000000%Z (plateau_losses 52))
    ≤ length (steps_of (plateau_losses 52) 0 4) + 0 + 52.
Proof.
  split; [exact Z.ltb_irrefl|]. split; [vm_compute; reflexivity|].
  destruct (early_stopping_policy Z.ltb 10000000%Z (plateau_losses 52))
    as (_ & _ & _ & _ & _ & _ & Hflat & _).
  apply (Hflat [] 50%Z (steps_of (plateau_losses 52) 56 44)).
  - exact Z.ltb_irrefl.
  - vm_compute. reflexivity.
Defined.

(** The same sequence with a plateau of 51 epochs: the counter reaches 50
    at the end of the plateau, the next loss is lower, and training runs
    all its 100 epochs. *)
Lemma early_stopping_policy_counterexample :
  steps_of (plateau_losses 51) 0 4 = [100; 99; 98; 97]%Z
  ∧ steps_of (plateau_losses 51) 4 96
    = replicate 51 50%Z ++ steps_of (plateau_losses 51) 55 45
  ∧ break_count (run_checked Z.ltb (replicate 51 50%Z)
                   (warm_state 10000000%Z (plateau_losses 51))) = 50
  ∧ stop_sign (train_classifier Z.ltb 10000000%Z (plateau_losses 51)) = false
  ∧ iteration (train_classifier Z.ltb 10000000%Z (plateau_losses 51)) = 100
  ∧ ¬ (stop_sign (train_classifier Z.ltb 10000000%Z (plateau_losses 51))
       = true
       ∧ iteration (train_classifier Z.ltb 10000000%Z (plateau_losses 51))
         ≤ 4 + 51).
Proof.
  split; [vm_compute; reflexivity|].
  split; [vm_compute; reflexivity|].
  split; [vm_compute; reflexivity|].
  split; [vm_compute; reflexivity|].
  split; [vm_compute; reflexivity|].
  intros [Hstop _]. vm_compute in Hstop. discriminate.
Qed.

(** C4. With three members and the files of members 0 and 2 in place, the
    only missing member is 1, but the run starts at the number of existing
    files: it trains member 2, writes over its file, and leaves member 1
    without a file. *)
Theorem resume_after_gap :
  pretrained gap_files "exp" 3 = [true; false; true]
  ∧ missing_members scenario_args gap_files = [1]
  ∧ trained (main_training scenario_args gap_files) = [2]
  ∧ saved (main_training scenario_args gap_files) = ["exp/model_2.pth"]
  ∧ "exp/model_2.pth" ∈ gap_files
  ∧ "exp/model_1.pth" ∉ files (main_training scenario_args gap_files).
Proof.
  split; [vm_compute; reflexivity|].
  split; [vm_compute; reflexivity|].
  split; [vm_compute; reflexivity|].
  split; [vm_compute; reflexivity|].
  split.
  - compute_done.
  - compute_done.
Qed.

(** From the empty directory the first run leaves the three files, and the
    second run trains nothing. *)
Lemma resumption_idempotent_witness :
  prefix_trained scenario_args ∅ 0
  ∧ trained (main_training scenario_args ∅) = [0; 1; 2]
  ∧ trained (main_training scenario_args
               (files (main_training scenario_args ∅))) = [].
Proof.
  assert (Hempty : prefix_trained scenario_args ∅ 0).
  { split; [simpl; lia|]. intros i _. split; [|lia].
    intros Hin. by apply not_elem_of_empty in Hin. }
  split; [exact Hempty|]. split; [vm_compute; reflexivity|].
  destruct (resumption_idempotent scenario_args ∅) as [_ Hprefix].
  destruct (Hprefix 0 Hempty) as (_ & Hnone & _). exact Hnone.
Defined.

(** * Further properties of the pipeline *)

(** ** Sparse-label suppression *)

Lemma length_filter_impl {T} (P Q : T → Prop) `{∀ x, Decision (P x)}
    `{∀ x, Decision (Q x)} (l : list T) :
  (∀ x, P x → Q x) → length (filter P l) ≤ length (filter Q l).
Proof.
  intros HPQ. induction l as [|x l IH]; [done|].
  rewrite !filter_cons.
  destruct (decide (P x)) as [HP|HP], (decide (Q x)) as [HQ|HQ];
    simpl; try lia.
  destruct HQ. by apply HPQ.
Qed.

Lemma length_filter_split {T} (P : T → Prop) `{∀ x, Decision (P x)}
    (l : list T) :
  length (filter P l) + length (filter (λ x, ¬ P x) l) = length l.
Proof.
  induction l as [|x l IH]; [done|].
  rewrite !filter_cons.
  destruct (decide (P x)), (decide (¬ P x)); simpl; try lia; tauto.
Qed.

Lemma relabel_suppressed_fixed nc ign (label : label_map) (v : Z) :
  relabel nc ign (suppress_sparse nc ign label) v = v.
Proof.
  unfold relabel.
  destruct (decide _) as [(Hrange & Hign & Hpos & Hlt)|]; [|done].
  rewrite count_eq_suppress in Hpos, Hlt by done.
  destruct (decide (sparse_class nc ign label v)) as [|Hns]; [lia|].
  destruct Hns. unfold sparse_class. tauto.
Qed.

(** Suppression is idempotent: a label map that has been through the loop
    is left as it is by a second pass. *)
Theorem suppress_sparse_idempotent (nc : nat) (ign : Z) (label : label_map) :
  suppress_sparse nc ign (suppress_sparse nc ign label)
  = suppress_sparse nc ign label.
Proof.
  rewrite (suppress_sparse_relabel nc ign (suppress_sparse nc ign label)).
  transitivity (pixel_map (λ v, v) (suppress_sparse nc ign label));
    [|apply pixel_map_id].
  apply pixel_map_ext. apply relabel_suppressed_fixed.
Qed.

(** The loop leaves a label map unchanged exactly when no class below
    [number_class], other than the ignore label, has between 1 and 19
    pixels in it. *)
Theorem suppress_sparse_unchanged_iff (nc : nat) (ign : Z)
    (label : label_map) :
  suppress_sparse nc ign label = label
  ↔ ∀ c, c < nc → Z.of_nat c ≠ ign →
         ¬ (0 < count_eq label (Z.of_nat c) < 20).
Proof.
  split.
  - intros Hsame c Hc Hign Hcount.
    pose proof (count_eq_suppress nc ign label (Z.of_nat c) Hign) as Hsup.
    rewrite Hsame in Hsup.
    rewrite decide_True in Hsup; [lia|]. unfold sparse_class. lia.
  - intros Hnone. rewrite suppress_sparse_relabel.
    transitivity (pixel_map (λ v, v) label); [|apply pixel_map_id].
    apply pixel_map_ext. intros v. unfold relabel.
    destruct (decide _) as [(Hrange & Hign & Hpos & Hlt)|]; [|done].
    destruct (Hnone (Z.to_nat v)); rewrite ?Z2Nat.id by lia; lia.
Qed.

(** What the loop can do to a pixel is keep its label or give it the ignore
    label; a pixel that carries the ignore label keeps it; the shape of the
    label map stays; the number of non-ignore pixels does not grow and the
    number of ignore pixels does not shrink. *)
Theorem suppress_sparse_only_ignores (nc : nat) (ign : Z)
    (label : label_map) :
  let label' := suppress_sparse nc ign label in
  (∀ i j, pixel label' i j = pixel label i j
          ∨ (is_Some (pixel label i j) ∧ pixel label' i j = Some ign))
  ∧ (∀ i j, pixel label i j = Some ign → pixel label' i j = Some ign)
  ∧ (∀ a b, has_shape2 a b label → has_shape2 a b label')
  ∧ kept_pixels ign label' ≤ kept_pixels ign label
  ∧ count_eq label ign ≤ count_eq label' ign.
Proof.
  intros label'. subst label'. rewrite suppress_sparse_relabel.
  assert (Hkeep : ∀ v, relabel nc ign label v = v
                       ∨ relabel nc ign label v = ign).
  { intros v. unfold relabel. destruct (decide _); auto. }
  assert (Hign : relabel nc ign label ign = ign).
  { unfold relabel. by destruct (decide _). }
  split; [|split; [|split; [|split]]].
  - intros i j. rewrite pixel_pixel_map.
    destruct (pixel label i j) as [v|]; simpl; [|by left].
    destruct (Hkeep v) as [->| ->]; [by left|right; eauto].
  - intros i j Hp. by rewrite pixel_pixel_map, Hp; simpl; rewrite Hign.
  - intros a b. apply has_shape2_pixel_map.
  - unfold kept_pixels. rewrite concat_pixel_map, length_filter_fmap.
    apply length_filter_impl. intros v Hv ->. by rewrite Hign in Hv.
  - rewrite count_eq_pixel_map. unfold count_eq.
    apply length_filter_impl. intros v ->. exact Hign.
Qed.

(** ** The size of the training table *)

Section TableFacts.
Context {Img Noise Feat A : Type}.
Variable zero : A.
Variable randn : Z → nat → Noise.
Variable feature_extractor : Img → option Noise → Feat.
Variable collect_features : Feat → list (list (list A)).

Local Abbreviation prep_flat :=
  (prep_flat zero randn feature_extractor collect_features).
Local Abbreviation prepare_data :=
  (prepare_data zero randn feature_extractor collect_features).
Local Abbreviation well_shaped :=
  (well_shaped feature_extractor collect_features).

(** Every pixel of the dataset is either returned as a row or stored with
    the ignore label as the [uint8] comparison sees it, reduced modulo 256:
    the rows that [prepare_data] returns and the stored labels equal to
    that value add up to N * H * W, so the table never has more than
    N * H * W rows; features and labels come in equal numbers; and a
    dataset of no image gives the empty table. *)
Theorem prepare_data_rows_conserved (args : Args)
    (dataset : list (Img * label_map)) :
  well_shaped args dataset →
  let r := prepare_data args dataset in
  let stored := (prep_flat args dataset).2 in
  length r.2 + length (filter (λ v, v = to_uint8 (ignore_label args)) stored)
  = length dataset * dim0 args * dim1 args
  ∧ length r.1 = length r.2
  ∧ length r.2 ≤ length dataset * dim0 args * dim1 args
  ∧ (dataset = [] → r = ([], [])).
Proof.
  intros Hwf r stored. subst r stored.
  destruct (prep_flat_lengths zero randn feature_extractor collect_features
              args dataset Hwf) as [_ Hy].
  assert (Hsum : length (prepare_data args dataset).2
                 + length (filter (λ v, v = to_uint8 (ignore_label args))
                             (prep_flat args dataset).2)
                 = length dataset * dim0 args * dim1 args).
  { rewrite prepare_data_labels, <- Hy.
    pose proof (length_filter_split
                  (λ v, v = to_uint8 (ignore_label args))
                  (prep_flat args dataset).2) as Hsplit.
    lia. }
  split; [exact Hsum|]. split; [by apply prepare_data_lengths|].
  split; [lia|]. intros ->. reflexivity.
Qed.

End TableFacts.

(** ** How long a member trains *)

Section TrainerBounds.
Context {Loss : Type}.
Variable loss_lt : Loss → Loss → bool.
Variable sentinel : Loss.

Local Abbreviation state := (@train_state Loss).
Local Abbreviation observe := (observe loss_lt).
Local Abbreviation run_checked := (run_checked loss_lt).
Local Abbreviation train_classifier := (train_classifier loss_lt sentinel).
Local Abbreviation warm_state := (warm_state sentinel).

Lemma observe_fields (x : Loss) (s : state) :
  let s1 := observe x (count_step s) in
  iteration s1 = S (iteration s)
  ∧ stop_sign s1 = stop_sign s
  ∧ (if loss_lt x (best_loss s)
     then break_count s1 = 0 ∧ best_loss s1 = x
     else break_count s1 = S (break_count s) ∧ best_loss s1 = best_loss s).
Proof.
  unfold observe, count_step. cbn. destruct (loss_lt x (best_loss s)); done.
Qed.

Lemma check_stop_cases (s : state) :
  (50 < break_count s
   ∧ check_stop s
     = ({| iteration := iteration s; break_count := break_count s;
           best_loss := best_loss s; stop_sign := true |}, true))
  ∨ (break_count s ≤ 50 ∧ check_stop s = (s, false)).
Proof.
  unfold check_stop. destruct (decide (50 < break_count s)); [left|right].
  - done.
  - split; [lia|done].
Qed.

Lemma run_checked_counts (l : list Loss) (s : state) :
  stop_sign s = false → break_count s ≤ 50 →
  let r := run_checked l s in
  (stop_sign r = false →
   iteration r = iteration s + length l ∧ break_count r ≤ 50)
  ∧ (stop_sign r = true →
     break_count r = 51 ∧ iteration r ≤ iteration s + length l
     ∧ iteration s + 51 ≤ iteration r + break_count s).
Proof.
  revert s. induction l as [|x rest IH]; intros s Hs Hb.
  - cbn. split; [intros _; lia|]. intros Hstop. congruence.
  - cbn [run_checked length].
    destruct (observe_fields x s) as (Hit & Hst & Hobs).
    set (s1 := observe x (count_step s)) in *.
    assert (Hb1 : break_count s1 = 0 ∨ break_count s1 = S (break_count s)).
    { destruct (loss_lt x (best_loss s)); tauto. }
    destruct (check_stop_cases s1) as [[Hfire ->]|[Hpass ->]]; cbn.
    + split; [done|]. intros _. lia.
    + destruct (IH s1) as [Hrun Hstop]; [congruence|done|].
      split.
      * intros Hr. destruct (Hrun Hr). lia.
      * intros Hr. destruct (Hstop Hr) as (? & ? & ?). lia.
Qed.

Lemma length_steps_of (loss_of : nat → list Loss) (nb first count : nat) :
  (∀ e, length (loss_of e) = nb) →
  length (steps_of loss_of first count) = count * nb.
Proof.
  intros Hnb. unfold steps_of. revert first.
  induction count as [|count IH]; intros first; [done|].
  cbn [seq fmap list_fmap concat]. rewrite length_app, Hnb, IH. lia.
Qed.

(** With [nb] batches in every epoch, a member never takes more than
    100 * nb steps; if the stop flag is not set it has taken all of them
    and the counter is at most 50; if the stop flag is set the counter is
    exactly 51 and at least the four warm-up epochs and 51 more steps have
    been taken. *)
Theorem training_step_counts (loss_of : nat → list Loss) (nb : nat) :
  (∀ e, length (loss_of e) = nb) →
  let r := train_classifier loss_of in
  iteration r ≤ 100 * nb
  ∧ (stop_sign r = false → iteration r = 100 * nb ∧ break_count r ≤ 50)
  ∧ (stop_sign r = true → break_count r = 51 ∧ 4 * nb + 51 ≤ iteration r).
Proof.
  intros Hnb r. subst r. rewrite train_classifier_checked.
  destruct (run_checked_counts (steps_of loss_of 4 96) (warm_state loss_of))
    as [Hrun Hstop]; [done|cbn; lia|].
  rewrite (length_steps_of loss_of nb) in Hrun, Hstop by done.
  change (iteration (warm_state loss_of))
    with (length (steps_of loss_of 0 4)) in Hrun, Hstop.
  change (break_count (warm_state loss_of)) with 0 in Hstop.
  rewrite (length_steps_of loss_of nb) in Hrun, Hstop by done.
  split; [|split].
  - destruct (stop_sign (run_checked _ _)) eqn:Hr.
    + destruct (Hstop eq_refl) as (_ & ? & _). lia.
    + destruct (Hrun eq_refl). lia.
  - intros Hr. destruct (Hrun Hr). lia.
  - intros Hr. destruct (Hstop Hr) as (? & _ & ?). lia.
Qed.

Lemma steps_of_empty (loss_of : nat → list Loss) (first count : nat) :
  (∀ e, loss_of e = []) → steps_of loss_of first count = [].
Proof.
  intros Hnil. unfold steps_of. revert first.
  induction count as [|count IH]; intros first; [done|].
  cbn [seq fmap list_fmap concat]. by rewrite Hnil, IH.
Qed.

(** A table with fewer rows than the batch size gives no batch at all: the
    100 epochs take no step and the training state at the end is the
    initial one, so the saved classifier has never been updated. *)
Theorem training_without_batches (loss_of : nat → list Loss)
    (rows batch_size : nat) :
  rows < batch_size →
  (∀ e, length (loss_of e) = len_loader rows batch_size) →
  train_classifier loss_of = train_init sentinel.
Proof.
  intros Hsmall Hlen.
  assert (Hnil : ∀ e, loss_of e = []).
  { intros e. apply length_zero_iff_nil. rewrite Hlen.
    unfold len_loader. by apply Nat.div_small. }
  rewrite train_classifier_checked. unfold warm_state.
  rewrite !steps_of_empty by done. reflexivity.
Qed.

Lemma run_checked_iteration_ge (l : list Loss) (s : state) :
  iteration s ≤ iteration (run_checked l s).
Proof.
  revert s. induction l as [|x rest IH]; intros s; [done|].
  cbn [run_checked].
  destruct (observe_fields x s) as (Hit & _ & _).
  set (s1 := observe x (count_step s)) in *.
  destruct (check_stop_cases s1) as [[_ ->]|[_ ->]]; cbn; [lia|].
  specialize (IH s1). lia.
Qed.

(** The best loss is kept below the losses seen: if none of the losses in
    [seen] is below the best loss before a run of checked steps, none of
    them, nor any loss of a step that the run takes, is below the best loss
    after it; and the best loss is the one before the run or the loss of a
    step taken. *)
Lemma run_checked_best (l : list Loss) (s : state) (seen : list Loss)
    (start : Loss) :
  (∀ x, loss_lt x x = false) →
  (∀ x y z, loss_lt x y = false → loss_lt z y = true → loss_lt x z = false) →
  Forall (λ x, loss_lt x (best_loss s) = false) seen →
  best_loss s = start ∨ best_loss s ∈ seen →
  let r := run_checked l s in
  let taken := seen ++ take (iteration r - iteration s) l in
  Forall (λ x, loss_lt x (best_loss r) = false) taken
  ∧ (best_loss r = start ∨ best_loss r ∈ taken).
Proof.
  intros Hirr Hneg. revert s seen.
  induction l as [|x rest IH]; intros s seen Hseen Hbest.
  - cbn. rewrite take_nil, app_nil_r. done.
  - cbn [run_checked].
    destruct (observe_fields x s) as (Hit & _ & Hobs).
    pose proof (run_checked_iteration_ge rest (observe x (count_step s)))
      as Hge.
    set (s1 := observe x (count_step s)) in *.
    assert (Hseen1 : Forall (λ y, loss_lt y (best_loss s1) = false)
                       (seen ++ [x])).
    { apply Forall_app. destruct (loss_lt x (best_loss s)) eqn:Hx.
      - destruct Hobs as [_ ->]. split.
        + eapply Forall_impl; [exact Hseen|]. intros y Hy. simpl in Hy.
          by apply (Hneg y (best_loss s) x).
        + repeat constructor. apply Hirr.
      - destruct Hobs as [_ ->]. split; [done|]. by repeat constructor. }
    assert (Hbest1 : best_loss s1 = start ∨ best_loss s1 ∈ seen ++ [x]).
    { destruct (loss_lt x (best_loss s)); destruct Hobs as [_ ->].
      - right. apply elem_of_app. right. by left.
      - destruct Hbest as [|Hin]; [by left|right].
        apply elem_of_app. by left. }
    destruct (check_stop_cases s1) as [[_ ->]|[_ ->]]; cbn.
    + rewrite Hit. replace (S (iteration s) - iteration s) with 1 by lia.
      cbn [take]. rewrite take_0. done.
    + replace (iteration (run_checked rest s1) - iteration s)
        with (S (iteration (run_checked rest s1) - iteration s1)) by lia.
      cbn [take]. rewrite cons_middle, app_assoc.
      by apply IH.
Qed.

(** Under a comparison that is irreflexive and in which a loss not below
    [y] is not below anything below [y], as that of the floating-point
    numbers is: at the end of training no loss of a step taken since epoch
    4 is below the best loss, and the best loss is the initial one or the
    loss of one of these steps. *)
Theorem best_loss_lower_bound (loss_of : nat → list Loss) :
  (∀ x, loss_lt x x = false) →
  (∀ x y z, loss_lt x y = false → loss_lt z y = true → loss_lt x z = false) →
  let r := train_classifier loss_of in
  let taken := take (iteration r - length (steps_of loss_of 0 4))
                    (steps_of loss_of 4 96) in
  Forall (λ x, loss_lt x (best_loss r) = false) taken
  ∧ (best_loss r = sentinel ∨ best_loss r ∈ taken).
Proof.
  intros Hirr Hneg r taken. subst r taken.
  rewrite train_classifier_checked.
  apply (run_checked_best (steps_of loss_of 4 96) (warm_state loss_of) []
           sentinel Hirr Hneg).
  - constructor.
  - by left.
Qed.

End TrainerBounds.

(** ** Model files *)

Lemma length_string_app (s t : string) :
  String.length (s +:+ t) = String.length s + String.length t.
Proof. induction s as [|c s IH]; [done|]. simpl. by rewrite IH. Qed.

Lemma string_app_inj_r (s1 s2 t : string) :
  s1 +:+ t = s2 +:+ t → s1 = s2.
Proof.
  revert s2. induction s1 as [|c s1 IH]; intros [|c' s2] Heq.
  - done.
  - apply (f_equal String.length) in Heq.
    rewrite !length_string_app in Heq. cbn [String.length] in Heq. lia.
  - apply (f_equal String.length) in Heq.
    rewrite !length_string_app in Heq. cbn [String.length] in Heq. lia.
  - simpl in Heq. injection Heq as -> Heq. f_equal. by apply IH.
Qed.

(** Different members never share a model file. *)
Theorem model_path_inj (dir : string) (i j : nat) :
  model_path dir i = model_path dir j → i = j.
Proof.
  unfold model_path, path_join. intros Heq.
  assert (Hname : "model_" +:+ pretty i +:+ ".pth"
                  = "model_" +:+ pretty j +:+ ".pth").
  { destruct (decide (dir = "")); [done|].
    destruct (ends_with_sep dir).
    - by apply (String.app_inj dir).
    - apply (String.app_inj "/"). by apply (String.app_inj dir). }
  apply (String.app_inj "model_") in Hname.
  apply string_app_inj_r in Hname.
  by apply (inj pretty).
Qed.

Lemma filter_none {T} (P : T → Prop) `{∀ x, Decision (P x)} (l : list T) :
  (∀ x, x ∈ l → ¬ P x) → filter P l = [].
Proof.
  induction l as [|x l IH]; intros Hl; [done|].
  rewrite filter_cons, decide_False by (apply Hl; left).
  apply IH. intros y Hy. apply Hl. by right.
Qed.

Lemma filter_all {T} (P : T → Prop) `{∀ x, Decision (P x)} (l : list T) :
  (∀ x, x ∈ l → P x) → filter P l = l.
Proof.
  induction l as [|x l IH]; intros Hl; [done|].
  rewrite filter_cons, decide_True by (apply Hl; left).
  f_equal. apply IH. intros y Hy. apply Hl. by right.
Qed.

Lemma sum_true_pretrained (fs : gset string) (dir : string) (n : nat) :
  sum_true (pretrained fs dir n)
  = length (filter (λ i, model_path dir i ∈ fs) (seq 0 n)).
Proof.
  unfold sum_true, pretrained. rewrite length_filter_fmap. f_equal.
  apply list_filter_iff. intros i. apply bool_decide_eq_true.
Qed.

Lemma sum_true_missing (args : Args) (fs : gset string) :
  sum_true (pretrained fs (exp_dir args) (model_num args))
  + length (missing_members args fs) = model_num args.
Proof.
  rewrite sum_true_pretrained. unfold missing_members.
  rewrite (length_filter_split (λ i, model_path (exp_dir args) i ∈ fs)).
  apply length_seq.
Qed.

(** A run never removes a model file and writes only the files of the
    members it trains; it trains as many members as have no file, and
    always the highest-numbered ones. *)
Theorem main_training_accounting (args : Args) (fs : gset string) :
  let r := main_training args fs in
  let m := length (missing_members args fs) in
  trained r = seq (model_num args - m) m
  ∧ saved r = model_path (exp_dir args) <$> trained r
  ∧ (∀ p, p ∈ files r ↔ p ∈ fs ∨ p ∈ saved r).
Proof.
  intros r m. subst r m.
  pose proof (sum_true_missing args fs) as Hsum.
  unfold main_training.
  destruct (all_true _) eqn:Hall.
  - rewrite all_true_pretrained in Hall.
    assert (Hnone : missing_members args fs = []).
    { unfold missing_members. apply filter_none. intros i Hi Hmiss.
      apply elem_of_seq in Hi. apply Hmiss, Hall. lia. }
    rewrite Hnone. simpl. split; [done|].
    split; [done|]. intros p. rewrite elem_of_nil. tauto.
  - destruct (train_fields (exp_dir args)
                (sum_true (pretrained fs (exp_dir args) (model_num args)))
                (model_num args) fs) as (Ht & Hs & Hf).
    rewrite Ht, Hs.
    replace (model_num args - length (missing_members args fs))
      with (sum_true (pretrained fs (exp_dir args) (model_num args)))
      by lia.
    replace (length (missing_members args fs))
      with (model_num args
            - sum_true (pretrained fs (exp_dir args) (model_num args)))
      by lia.
    split; [done|]. split; [done|].
    intros p. rewrite Hf, list_elem_of_fmap.
    split; (intros [?|(i & Hp & Hi)]; [by left|right; exists i]).
    + split; [tauto|]. apply elem_of_seq. lia.
    + apply elem_of_seq in Hi. split; [lia|done].
Qed.

(** A member without a file below the number of existing files is never
    trained: the run leaves it without a file, and it is still below the
    number of existing files afterwards. *)
Lemma gap_persists (args : Args) (fs : gset string) (m : nat) :
  m < sum_true (pretrained fs (exp_dir args) (model_num args)) →
  model_path (exp_dir args) m ∉ fs →
  let fs' := files (main_training args fs) in
  (model_path (exp_dir args) m ∉ fs')
  ∧ m < sum_true (pretrained fs' (exp_dir args) (model_num args)).
Proof.
  intros Hm Hmiss fs'. subst fs'.
  destruct (main_training_accounting args fs) as (Ht & Hs & Hf).
  pose proof (sum_true_missing args fs) as Hsum.
  split.
  - rewrite Hf, Hs. intros [Hin|Hin]; [done|].
    apply list_elem_of_fmap in Hin as (i & Heq & Hi).
    apply model_path_inj in Heq as <-.
    rewrite Ht in Hi. apply elem_of_seq in Hi. lia.
  - eapply Nat.lt_le_trans; [exact Hm|].
    rewrite !sum_true_pretrained. apply length_filter_impl.
    intros i Hi. apply Hf. by left.
Qed.

Lemma gap_below_count (args : Args) (fs : gset string) (i j : nat) :
  i < j → j < model_num args →
  model_path (exp_dir args) i ∉ fs → model_path (exp_dir args) j ∈ fs →
  ∃ m, m < sum_true (pretrained fs (exp_dir args) (model_num args))
       ∧ model_path (exp_dir args) m ∉ fs.
Proof.
  intros Hij Hj Hi Hjin.
  set (s := sum_true (pretrained fs (exp_dir args) (model_num args))).
  set (P := λ k, model_path (exp_dir args) k ∈ fs).
  destruct (decide (Forall P (seq 0 s))) as [Hall|Hnot].
  - exfalso.
    assert (Hs : s ≤ model_num args).
    { pose proof (sum_true_missing args fs). subst s. lia. }
    assert (Hcount : s = length (filter P (seq 0 (model_num args)))).
    { subst s P. apply sum_true_pretrained. }
    replace (model_num args) with (s + (model_num args - s)) in Hcount
      by lia.
    rewrite seq_app, filter_app, length_app in Hcount.
    rewrite (filter_all P (seq 0 s)) in Hcount
      by (rewrite Forall_forall in Hall; exact Hall).
    rewrite length_seq in Hcount. simpl in Hcount.
    assert (Hjs : s ≤ j).
    { destruct (decide (s ≤ j)) as [|Hlt]; [done|].
      rewrite Forall_forall in Hall. destruct Hi. apply (Hall i).
      apply elem_of_seq. lia. }
    assert (Hin : j ∈ filter P (seq s (model_num args - s))).
    { apply list_elem_of_filter. split; [exact Hjin|].
      apply elem_of_seq. lia. }
    destruct (filter P (seq s (model_num args - s))) as [|x l] eqn:Hf.
    + by apply elem_of_nil in Hin.
    + simpl in Hcount. lia.
  - apply not_Forall_Exists in Hnot; [|apply _].
    apply Exists_exists in Hnot as (m & Hm & HP).
    exists m. apply elem_of_seq in Hm. split; [lia|exact HP].
Qed.

(** A directory with a gap is never completed: when some member without a
    file is followed by a member with a file, there is a member that has no
    file after any number of runs, and every one of these runs trains at
    least one member again. *)
Theorem gap_never_filled (args : Args) (fs : gset string) (i j : nat) :
  i < j → j < model_num args →
  model_path (exp_dir args) i ∉ fs → model_path (exp_dir args) j ∈ fs →
  ∃ m, m < model_num args
       ∧ ∀ k, (model_path (exp_dir args) m ∉ rerun args k fs)
              ∧ trained (main_training args (rerun args k fs)) ≠ [].
Proof.
  intros Hij Hj Hi Hjin.
  destruct (gap_below_count args fs i j Hij Hj Hi Hjin) as (m & Hm & Hmiss).
  assert (Hn : m < model_num args).
  { pose proof (sum_true_missing args fs). lia. }
  exists m. split; [exact Hn|].
  assert (Hinv : ∀ k fs0,
            m < sum_true (pretrained fs0 (exp_dir args) (model_num args)) →
            model_path (exp_dir args) m ∉ fs0 →
            (model_path (exp_dir args) m ∉ rerun args k fs0)
            ∧ m < sum_true (pretrained (rerun args k fs0) (exp_dir args)
                              (model_num args))).
  { induction k as [|k IH]; intros fs0 Hm0 Hmiss0; [done|].
    cbn [rerun].
    destruct (gap_persists args fs0 m Hm0 Hmiss0) as [Hmiss1 Hm1].
    by apply IH. }
  intros k. destruct (Hinv k fs Hm Hmiss) as [Hmissk Hmk].
  split; [exact Hmissk|].
  destruct (main_training_accounting args (rerun args k fs)) as (Ht & _).
  rewrite Ht.
  assert (Hin : m ∈ missing_members args (rerun args k fs)).
  { unfold missing_members. apply list_elem_of_filter.
    split; [exact Hmissk|]. apply elem_of_seq. lia. }
  destruct (missing_members args (rerun args k fs)) as [|x l]; [|done].
  by apply elem_of_nil in Hin.
Qed.

(** ** The experiment folder *)

Lemma string_app_assoc (a b c : string) : (a +:+ b) +:+ c = a +:+ b +:+ c.
Proof.
  induction a as [|x a IH]; [done|].
  change (String x ((a +:+ b) +:+ c) = String x (a +:+ b +:+ c)).
  by rewrite IH.
Qed.

Lemma join_with_cons (sep part : string) (rest : list string) :
  rest ≠ [] →
  join_with sep (part :: rest) = part +:+ sep +:+ join_with sep rest.
Proof. by destruct rest. Qed.

Lemma join_with_snoc (sep : string) (parts : list string) (last : string) :
  parts ≠ [] →
  join_with sep (parts ++ [last]) = join_with sep parts +:+ sep +:+ last.
Proof.
  induction parts as [|part parts IH]; intros Hne; [done|].
  destruct parts as [|part' parts]; [done|].
  change ((part :: part' :: parts) ++ [last])
    with (part :: ((part' :: parts) ++ [last])).
  rewrite join_with_cons by done. rewrite IH by done.
  rewrite (join_with_cons sep part (part' :: parts)) by done.
  by rewrite !string_app_assoc.
Qed.

(** The folder name does not tell where the steps end and the blocks
    begin: moving the last step to the front of the blocks gives the same
    experiment directory, so two different configurations share their model
    files. With no step the directory is the configured one, whatever the
    blocks. *)
Theorem experiment_dir_ambiguous (dir : string) (steps blocks : list Z)
    (x : Z) :
  steps ≠ [] → blocks ≠ [] →
  experiment_dir dir (steps ++ [x]) blocks
  = experiment_dir dir steps (x :: blocks)
  ∧ experiment_dir dir [] blocks = dir.
Proof.
  intros Hsteps Hblocks. split; [|done].
  unfold experiment_dir.
  rewrite decide_True by (rewrite length_app; simpl; lia).
  rewrite decide_True by (destruct steps; [done|simpl; lia]).
  f_equal. unfold exp_suffix.
  rewrite fmap_app, fmap_cons, fmap_nil.
  rewrite join_with_snoc by (by destruct steps).
  rewrite fmap_cons, join_with_cons by (by destruct blocks).
  by rewrite !string_app_assoc.
Qed.

(** ** What [evaluation] predicts *)

Section EvaluationFacts.
Context {Img Noise Feat A Pred : Type}.
Variable randn : Z → nat → Noise.
Variable feature_extractor : Img → option Noise → Feat.
Variable collect_features : Feat → list (list (list A)).
Variable predict_labels : list (list A) → Pred * Q.

Local Abbreviation predict_image :=
  (predict_image feature_extractor collect_features predict_labels).
Local Abbreviation eval_loop :=
  (eval_loop randn feature_extractor collect_features predict_labels).

(** The predictions and the uncertainty scores do not depend on the ground
    truth: two test datasets with the same images in the same order give
    the same predictions and scores, one per image, whatever their label
    maps. *)
Theorem evaluation_predictions_ignore_labels (args : Args)
    (dataset dataset' : list (Img * label_map)) :
  dataset.*1 = dataset'.*1 →
  preds (eval_loop args dataset) = preds (eval_loop args dataset')
  ∧ uncertainty_scores (eval_loop args dataset)
    = uncertainty_scores (eval_loop args dataset')
  ∧ length (preds (eval_loop args dataset)) = length dataset
  ∧ length (uncertainty_scores (eval_loop args dataset)) = length dataset
  ∧ length (gts (eval_loop args dataset)) = length dataset.
Proof.
  intros Himgs.
  destruct (eval_loop_fields randn feature_extractor collect_features
              predict_labels args dataset) as (Hp & Hg & Hu & _).
  destruct (eval_loop_fields randn feature_extractor collect_features
              predict_labels args dataset') as (Hp' & _ & Hu' & _).
  rewrite Hp, Hp', Hu, Hu', Hg, !length_fmap.
  change (λ it : Img * label_map,
            (predict_image args (make_noise randn args) it.1).1)
    with ((λ img, (predict_image args (make_noise randn args) img).1)
          ∘ @fst Img label_map).
  change (λ it : Img * label_map,
            (predict_image args (make_noise randn args) it.1).2)
    with ((λ img, (predict_image args (make_noise randn args) img).2)
          ∘ @fst Img label_map).
  rewrite !list_fmap_compose, Himgs. done.
Qed.

End EvaluationFacts.

(** ** The further properties on concrete runs *)

(** [wide_label] has no pixel of a class below 3: the loop leaves it as it
    is. *)
Lemma suppress_sparse_unchanged_iff_witness :
  (∀ c, c < 3 → Z.of_nat c ≠ 255%Z →
        ¬ (0 < count_eq wide_label (Z.of_nat c) < 20))
  ∧ suppress_sparse 3 255 wide_label = wide_label.
Proof.
  assert (Hnone : ∀ c, c < 3 → Z.of_nat c ≠ 255%Z →
                       ¬ (0 < count_eq wide_label (Z.of_nat c) < 20)).
  { intros c Hc _.
    assert (count_eq wide_label (Z.of_nat c) = 0) as ->; [|lia].
    destruct c as [|[|[|c]]]; [reflexivity..|lia]. }
  split; [exact Hnone|].
  apply (suppress_sparse_unchanged_iff 3 255 wide_label). exact Hnone.
Defined.

Lemma suppress_sparse_only_ignores_witness :
  has_shape2 5 5 sparse_label
  ∧ has_shape2 5 5 (suppress_sparse 3 255 sparse_label)
  ∧ kept_pixels 255 (suppress_sparse 3 255 sparse_label) = 21
  ∧ kept_pixels 255 sparse_label = 25.
Proof.
  assert (Hshape : has_shape2 5 5 sparse_label) by shape_tac.
  destruct (suppress_sparse_only_ignores 3 255 sparse_label)
    as (_ & _ & Hkeeps & _).
  split; [exact Hshape|]. split; [by apply Hkeeps|].
  split; reflexivity.
Defined.

(** The 25 pixels of [sparse_images]: 21 rows and 4 stored ignore
    labels. *)
Lemma prepare_data_rows_conserved_witness :
  well_shaped demo_extractor (demo_collect 2 5) sparse_args sparse_images
  ∧ length (prepare_data 0%Z demo_randn demo_extractor (demo_collect 2 5)
              sparse_args sparse_images).2
    + length (filter (λ v, v = 255%Z)
                (prep_flat 0%Z demo_randn demo_extractor (demo_collect 2 5)
                   sparse_args sparse_images).2)
    = 1 * 5 * 5
  ∧ length (prepare_data 0%Z demo_randn demo_extractor (demo_collect 2 5)
              sparse_args sparse_images).2 = 21.
Proof.
  split; [exact sparse_well_shaped|].
  destruct (prepare_data_rows_conserved 0%Z demo_randn demo_extractor
              (demo_collect 2 5) sparse_args sparse_images
              sparse_well_shaped) as (Hsum & _).
  split; [exact Hsum|reflexivity].
Defined.

(** One batch per epoch and a plateau of 52: training stops with the
    counter at 51 after at least 4 + 51 steps. *)
Lemma training_step_counts_witness :
  (∀ e, length (plateau_losses 52 e) = 1)
  ∧ stop_sign (train_classifier Z.ltb 10000000%Z (plateau_losses 52)) = true
  ∧ break_count (train_classifier Z.ltb 10000000%Z (plateau_losses 52)) = 51
  ∧ 4 * 1 + 51
    ≤ iteration (train_classifier Z.ltb 10000000%Z (plateau_losses 52)).
Proof.
  assert (Hone : ∀ e, length (plateau_losses 52 e) = 1) by (intros e; done).
  split; [exact Hone|].
  assert (Hstop : stop_sign (train_classifier Z.ltb 10000000%Z
                               (plateau_losses 52)) = true)
    by (vm_compute; reflexivity).
  split; [exact Hstop|].
  destruct (training_step_counts Z.ltb 10000000%Z (plateau_losses 52) 1 Hone)
    as (_ & _ & Hstopped).
  exact (Hstopped Hstop).
Defined.

(** Three rows and a batch size of 64. *)
Lemma training_without_batches_witness :
  3 < 64
  ∧ (∀ e, length (idle_losses e) = len_loader 3 64)
  ∧ train_classifier Z.ltb 10000000%Z idle_losses = train_init 10000000%Z.
Proof.
  split; [lia|]. split; [intros e; reflexivity|].
  apply (training_without_batches Z.ltb 10000000%Z idle_losses 3 64);
    [lia|intros e; reflexivity].
Defined.

Lemma best_loss_lower_bound_witness :
  (∀ x : Z, (x <? x)%Z = false)
  ∧ (∀ x y z : Z, (x <? y)%Z = false → (z <? y)%Z = true →
                  (x <? z)%Z = false)
  ∧ best_loss (train_classifier Z.ltb 10000000%Z (plateau_losses 52)) = 50%Z
  ∧ Forall (λ x, (x <? best_loss (train_classifier Z.ltb 10000000%Z
                                    (plateau_losses 52)))%Z = false)
      (take (iteration (train_classifier Z.ltb 10000000%Z (plateau_losses 52))
             - length (steps_of (plateau_losses 52) 0 4))
            (steps_of (plateau_losses 52) 4 96)).
Proof.
  assert (Hneg : ∀ x y z : Z, (x <? y)%Z = false → (z <? y)%Z = true →
                              (x <? z)%Z = false).
  { intros x y z. rewrite !Z.ltb_ge, Z.ltb_lt. lia. }
  split; [exact Z.ltb_irrefl|]. split; [exact Hneg|].
  split; [vm_compute; reflexivity|].
  destruct (best_loss_lower_bound Z.ltb 10000000%Z (plateau_losses 52)
              Z.ltb_irrefl Hneg) as [Hbound _].
  exact Hbound.
Defined.

Lemma model_path_inj_witness :
  model_path "exp" 2 = model_path "exp" (1 + 1) ∧ 2 = 1 + 1.
Proof.
  split; [reflexivity|]. apply (model_path_inj "exp"). reflexivity.
Defined.

(** With the files of members 0 and 2, one member is missing and the run
    trains one member, the last. *)
Lemma main_training_accounting_witness :
  length (missing_members scenario_args gap_files) = 1
  ∧ trained (main_training scenario_args gap_files) = seq (3 - 1) 1
  ∧ ("exp/model_0.pth" ∈ gap_files
     → "exp/model_0.pth" ∈ files (main_training scenario_args gap_files)).
Proof.
  destruct (main_training_accounting scenario_args gap_files)
    as (Htrained & _ & Hfiles).
  split; [reflexivity|]. split; [exact Htrained|].
  intros Hin. apply Hfiles. by left.
Defined.

Lemma gap_never_filled_witness :
  1 < 2 ∧ 2 < model_num scenario_args
  ∧ (model_path (exp_dir scenario_args) 1 ∉ gap_files)
  ∧ model_path (exp_dir scenario_args) 2 ∈ gap_files
  ∧ ∃ m, m < model_num scenario_args
         ∧ ∀ k, (model_path (exp_dir scenario_args) m
                 ∉ rerun scenario_args k gap_files)
                ∧ trained (main_training scenario_args
                             (rerun scenario_args k gap_files)) ≠ [].
Proof.
  assert (Hmiss : model_path (exp_dir scenario_args) 1 ∉ gap_files)
    by compute_done.
  assert (Hin : model_path (exp_dir scenario_args) 2 ∈ gap_files)
    by compute_done.
  split; [lia|]. split; [simpl; lia|]. split; [exact Hmiss|].
  split; [exact Hin|].
  apply (gap_never_filled scenario_args gap_files 1 2);
    [lia|simpl; lia|exact Hmiss|exact Hin].
Defined.

(** Steps 50, 150, 250 with blocks 5, 6 and steps 50, 150 with blocks 250,
    5, 6 work in the same folder. *)
Lemma experiment_dir_ambiguous_witness :
  [50; 150]%Z ≠ [] ∧ [5; 6]%Z ≠ []
  ∧ experiment_dir "exp" ([50; 150] ++ [250])%Z [5; 6]%Z
    = experiment_dir "exp" [50; 150]%Z (250 :: [5; 6])%Z
  ∧ experiment_dir "exp" [50; 150]%Z [250; 5; 6]%Z = "exp/50_150_250_5_6".
Proof.
  split; [done|]. split; [done|].
  destruct (experiment_dir_ambiguous "exp" [50; 150]%Z [5; 6]%Z 250%Z)
    as [Hsame _]; [done|done|].
  split; [exact Hsame|vm_compute; reflexivity].
Defined.

Lemma evaluation_predictions_ignore_labels_witness :
  scenario_images.*1 = scenario_unlabelled.*1
  ∧ preds (eval_loop demo_randn demo_extractor (demo_collect 3 4)
             demo_predict scenario_args scenario_images)
    = preds (eval_loop demo_randn demo_extractor (demo_collect 3 4)
               demo_predict scenario_args scenario_unlabelled).
Proof.
  split; [reflexivity|].
  destruct (evaluation_predictions_ignore_labels demo_randn demo_extractor
              (demo_collect 3 4) demo_predict scenario_args scenario_images
              scenario_unlabelled) as [Hpreds _]; [reflexivity|].
  exact Hpreds.
Defined.
